(** * The Anvil form-template generator ([_anvil_designer/generate_class.py])

    A shallow embedding of the document-to-source generator: the scalar
    normalizer ([validate_text], [validate_yaml]), the catalog builder
    ([add_properties], [lowest_level_component], [derive_dict]) and the
    emitter ([dict2string], [yaml2definition]).

    Conventions.
    - Texts are [string]s; one [ascii] stands for one Python character, so
      the model speaks about ASCII documents.
    - A Python exception is a value of [exception]; a function that may
      raise returns a [result].  [KeyError], [IndexError], the refusals of
      strictyaml's validators and the [ValueError] of Python's [float] and
      [dict.update] are told apart; every other exception Python raises on
      a node or value of the wrong shape is [TypeError].
    - The generator mutates the parsed document in place.  Every function
      that does so returns the document as it is after the call, next to
      its Python return value.
    - The recursive functions take a [fuel] argument; their callers pass
      more than the depth of the document, which is shown to be enough.

    The generator runs on strictyaml documents.  What the model takes from
    that library is written down where it is used: [getitem], [setitem],
    [len], [iter], [data], and [revalidate] with the scalar validators;
    binary floating point and the printing of nested values are left open
    (the variables of section [Generator]).

    The stand-ins for the runtime classes the generated text builds on
    ([anvil/component.py]) are embedded next to the generator. *)

From Stdlib Require Import String Ascii List Bool Arith Lia.
From Stdlib Require BinInt DecimalString.
Import ListNotations.
Set Warnings "-register-all".
Local Open Scope string_scope.
Local Open Scope list_scope.
Local Open Scope nat_scope.

Infix "+++" := String.append (right associativity, at level 60).

(** ** Exceptions and results *)

Inductive exception : Type :=
| KeyError (key : string)   (* a mapping has no such key *)
| IndexError                (* a sequence has no such position *)
| TypeError                 (* an operation met a node or value of the wrong shape *)
| ValidationError           (* a strictyaml validator refused the node *)
| PyValueError              (* ValueError: a built-in could not take the value it was given *)
| OutOfFuel.                (* the fuel of the model ran out: never with the callers' fuel *)

Inductive result (A : Type) : Type :=
| Ok (a : A)
| Raise (e : exception).
Arguments Ok {A} a.
Arguments Raise {A} e.

Definition bind {A B : Type} (r : result A) (k : A -> result B) : result B :=
  match r with
  | Ok a => k a
  | Raise e => Raise e
  end.

Notation "x <- r ;; k" := (bind r (fun x => k))
  (at level 61, r at next level, right associativity).
Notation "' p <- r ;; k" := (bind r (fun x => let p := x in k))
  (at level 61, p pattern, r at next level, right associativity).

(** [for x in l: s = body(s, x)], stopping at the first exception. *)
Fixpoint for_each {A S : Type} (l : list A) (body : S -> A -> result S) (s : S)
  : result S :=
  match l with
  | [] => Ok s
  | a :: l' => s' <- body s a ;; for_each l' body s'
  end.

(** ** Texts *)

Definition chars (s : string) : list ascii := list_ascii_of_string s.

Definition mem_ascii (c : ascii) (l : list ascii) : bool :=
  existsb (Ascii.eqb c) l.

Definition mem_string (s : string) (l : list string) : bool :=
  existsb (String.eqb s) l.

(** [set(s) <= set(t)]: every character of [s] occurs in [t]. *)
Definition charset_le (s t : string) : bool :=
  forallb (fun c => mem_ascii c (chars t)) (chars s).

Definition is_upper (c : ascii) : bool :=
  (65 <=? nat_of_ascii c) && (nat_of_ascii c <=? 90).
Definition is_lower (c : ascii) : bool :=
  (97 <=? nat_of_ascii c) && (nat_of_ascii c <=? 122).
Definition to_upper (c : ascii) : ascii :=
  if is_lower c then ascii_of_nat (nat_of_ascii c - 32) else c.
Definition to_lower (c : ascii) : ascii :=
  if is_upper c then ascii_of_nat (nat_of_ascii c + 32) else c.

(** [str.lower] on a text of ASCII characters: the letters are the
    fifty-two of ASCII, and a character beyond ASCII, which Python may
    take for a letter, is left as it is. *)
Fixpoint lower (s : string) : string :=
  match s with
  | EmptyString => EmptyString
  | String c s' => String (to_lower c) (lower s')
  end.

(** [str.title] on a text of ASCII characters: the first letter of every
    run of letters in upper case, the others in lower case.  [cased] says
    whether the previous character was a letter.  As for [lower], the
    letters are those of ASCII. *)
Fixpoint title_from (cased : bool) (s : string) : string :=
  match s with
  | EmptyString => EmptyString
  | String c s' =>
      if is_lower c then
        String (if cased then c else to_upper c) (title_from true s')
      else if is_upper c then
        String (if cased then to_lower c else c) (title_from true s')
      else String c (title_from false s')
  end.

Definition title (s : string) : string := title_from false s.

(** [str.split(sep)] for a one-character separator; [cur] is the segment
    being read, reversed. *)
Fixpoint split_from (sep : ascii) (cur : list ascii) (s : string) : list string :=
  match s with
  | EmptyString => [string_of_list_ascii (rev cur)]
  | String c s' =>
      if Ascii.eqb c sep
      then string_of_list_ascii (rev cur) :: split_from sep [] s'
      else split_from sep (c :: cur) s'
  end.

Definition split (sep : ascii) (s : string) : list string := split_from sep [] s.

(** [''.join(l)] *)
Definition join (l : list string) : string := fold_right String.append EmptyString l.

(** [needle in s] for texts. *)
Fixpoint contains (needle s : string) : bool :=
  String.prefix needle s ||
  match s with
  | EmptyString => false
  | String _ s' => contains needle s'
  end.

(** ** Python values and insertion-ordered dictionaries *)

(** The values a validated document holds.  A float is given by its
    [repr], which determines it. *)
Inductive pyval : Type :=
| PyNone
| PyBool (b : bool)
| PyFloat (repr : string)
| PyStr (s : string)
| PyList (l : list pyval)
| PyDict (d : list (string * pyval)).

(** A [dict] or [OrderedDict] with text keys: the pairs in insertion order. *)
Definition odict (A : Type) : Type := list (string * A).

Fixpoint od_get {A : Type} (k : string) (d : odict A) : option A :=
  match d with
  | [] => None
  | (k', a) :: d' => if String.eqb k' k then Some a else od_get k d'
  end.

(** [d[k] = a]: a key already there keeps its place, a new one goes last. *)
Fixpoint od_set {A : Type} (k : string) (a : A) (d : odict A) : odict A :=
  match d with
  | [] => [(k, a)]
  | (k', a') :: d' =>
      if String.eqb k' k then (k', a) :: d' else (k', a') :: od_set k a d'
  end.

(** [d.update(other)] *)
Definition od_update {A : Type} (d other : odict A) : odict A :=
  fold_left (fun acc kv => od_set (fst kv) (snd kv) acc) other d.

Definition od_keys {A : Type} (d : odict A) : list string := map fst d.

(** The value under an existing key replaced where it stands; nothing
    happens when the key is absent. *)
Fixpoint od_replace {A : Type} (k : string) (a : A) (d : odict A) : odict A :=
  match d with
  | [] => []
  | (k', a') :: d' =>
      if String.eqb k' k then (k', a) :: d' else (k', a') :: od_replace k a d'
  end.

Fixpoint list_replace {A : Type} (i : nat) (a : A) (l : list A) : list A :=
  match l, i with
  | [], _ => []
  | _ :: l', O => a :: l'
  | x :: l', S i' => x :: list_replace i' a l'
  end.

(** A [dict] whose keys are any hashable values: the pairs in insertion
    order. *)
Definition pydict : Type := list (pyval * pyval).

(** The entries of a dictionary that stand under text keys.  A dictionary
    is read as these entries where a dictionary with text keys is
    expected. *)
Fixpoint text_entries (d : pydict) : odict pyval :=
  match d with
  | [] => []
  | (PyStr k, v) :: d' => (k, v) :: text_entries d'
  | _ :: d' => text_entries d'
  end.

Coercion text_entries : pydict >-> odict.

(** Lists and dictionaries are not hashable. *)
Definition hashable (k : pyval) : bool :=
  match k with
  | PyList _ | PyDict _ => false
  | _ => true
  end.

(** [a == b] for two hashable values: a text equals the same text, [None]
    equals [None], two floats are equal when they have the same [repr]
    (the floats read from texts of digits and points are neither negative
    zero nor a NaN), and [True] and [False] are equal to the floats [1.0]
    and [0.0]. *)
Definition key_eqb (a b : pyval) : bool :=
  match a, b with
  | PyNone, PyNone => true
  | PyBool x, PyBool y => Bool.eqb x y
  | PyFloat r, PyFloat r' => String.eqb r r'
  | PyStr s, PyStr s' => String.eqb s s'
  | PyBool x, PyFloat r | PyFloat r, PyBool x =>
      String.eqb r (if x then "1.0" else "0.0")
  | _, _ => false
  end.

(** [d[k] = v] for a hashable [k]: an equal key already there stays as it
    is and keeps its place, a new key goes last. *)
Fixpoint pd_set (k v : pyval) (d : pydict) : pydict :=
  match d with
  | [] => [(k, v)]
  | (k', v') :: d' =>
      if key_eqb k' k then (k', v) :: d' else (k', v') :: pd_set k v d'
  end.

(** The text of one character. *)
Definition char_text (c : ascii) : string := String c EmptyString.

(** An element of the sequence given to [dict.update], unpacked into a key
    and a value: the two items of a list, the two characters of a text,
    the two keys of a dictionary.  A value that is not iterable raises
    [TypeError], an iterable of another length [ValueError]. *)
Definition as_pair (item : pyval) : result (pyval * pyval) :=
  match item with
  | PyNone | PyBool _ | PyFloat _ => Raise TypeError
  | PyStr s =>
      match chars s with
      | [a; b] => Ok (PyStr (char_text a), PyStr (char_text b))
      | _ => Raise PyValueError
      end
  | PyList l =>
      match l with
      | [k; v] => Ok (k, v)
      | _ => Raise PyValueError
      end
  | PyDict d =>
      match d with
      | [(k, _); (k', _)] => Ok (PyStr k, PyStr k')
      | _ => Raise PyValueError
      end
  end.

(** [d.update(other)] for a list of elements, one after the other. *)
Definition update_pairs (d : pydict) (other : list pyval) : result pydict :=
  for_each other
    (fun d item =>
       kv <- as_pair item ;;
       if hashable (fst kv) then Ok (pd_set (fst kv) (snd kv) d)
       else Raise TypeError)
    d.

(** [d.update(other)]: a dictionary gives its entries, a list its elements
    as pairs, a text its characters as elements; any other value is not
    iterable. *)
Definition dict_update (d : pydict) (other : pyval) : result pydict :=
  match other with
  | PyDict entries =>
      Ok (fold_left (fun acc kv => pd_set (PyStr (fst kv)) (snd kv) acc) entries d)
  | PyList l => update_pairs d l
  | PyStr s => update_pairs d (map (fun c => PyStr (char_text c)) (chars s))
  | PyNone | PyBool _ | PyFloat _ => Raise TypeError
  end.

(** ** strictyaml documents *)

(** A parsed document.  A scalar keeps the text it was read from ([.text])
    and the value its last validator gave it; a dirty load leaves the text
    itself as the value.  The keys of a mapping are texts and are never
    revalidated. *)
Inductive YAML : Type :=
| Scalar (text : string) (value : pyval)
| Mapping (items : odict YAML)
| Sequence (items : list YAML).

(** The validators the generator names. *)
Inductive Validator : Type := Str | Bool | NullNone | Float | EmptyDict | EmptyList.

(** An index into a node: a key of a mapping or a position of a sequence. *)
Inductive index : Type := Key (k : string) | Ix (i : nat).

Definition is_mapping (v : YAML) : bool :=
  match v with Mapping _ => true | _ => false end.
Definition is_scalar (v : YAML) : bool :=
  match v with Scalar _ _ => true | _ => false end.

(** [value.text] *)
Definition text_of (v : YAML) : result string :=
  match v with
  | Scalar t _ => Ok t
  | _ => Raise TypeError
  end.

(** [value[ix]].  A mapping has no position: asked for one, which the
    generator never does, it raises [KeyError] with the number, given
    here by its decimal text. *)
Definition getitem (v : YAML) (ix : index) : result YAML :=
  match v, ix with
  | Mapping items, Key k =>
      match od_get k items with
      | Some c => Ok c
      | None => Raise (KeyError k)
      end
  | Mapping _, Ix i =>
      Raise (KeyError (DecimalString.NilZero.string_of_uint (Nat.to_uint i)))
  | Sequence items, Ix i =>
      match nth_error items i with
      | Some c => Ok c
      | None => Raise IndexError
      end
  | _, _ => Raise TypeError
  end.

(** The children are objects shared with their parent: a child mutated in
    place is seen through the parent.  [store v ix c] is [v] once its child
    at [ix] has become [c]. *)
Definition store (v : YAML) (ix : index) (c : YAML) : YAML :=
  match v, ix with
  | Mapping items, Key k => Mapping (od_replace k c items)
  | Sequence items, Ix i => Sequence (list_replace i c items)
  | _, _ => v
  end.

(** [value[k] = scalar] for a text key.  On a mapping the key is replaced
    where it stands, whatever it held, or appended.  A scalar becomes the
    mapping of that one key.  A sequence takes no text key. *)
Definition setitem (v : YAML) (k : string) (c : YAML) : result YAML :=
  match v with
  | Mapping items => Ok (Mapping (od_set k c items))
  | Scalar _ _ => Ok (Mapping [(k, c)])
  | Sequence _ => Raise TypeError
  end.

(** [len(value)], the length of what the node holds: the entries of a
    mapping or sequence, the characters of an unvalidated text. *)
Definition len (v : YAML) : nat :=
  match v with
  | Scalar t _ => String.length t
  | Mapping items => List.length items
  | Sequence items => List.length items
  end.

(** [value.data] *)
Fixpoint data (v : YAML) : pyval :=
  match v with
  | Scalar _ x => x
  | Mapping items => PyDict (map (fun kv => (fst kv, data (snd kv))) items)
  | Sequence items => PyList (map data items)
  end.

(** The nesting depth of a document, which bounds every recursion on it. *)
Fixpoint depth (v : YAML) : nat :=
  match v with
  | Scalar _ _ => 0
  | Mapping items => S (list_max (map (fun kv => depth (snd kv)) items))
  | Sequence items => S (list_max (map depth items))
  end.

(** Induction on documents: the induction hypothesis holds for every child. *)

Section YAML_induction.
Variable P : YAML -> Prop.
Hypothesis P_scalar : forall t x, P (Scalar t x).
Hypothesis P_mapping :
  forall items, Forall (fun kv => P (snd kv)) items -> P (Mapping items).
Hypothesis P_sequence : forall items, Forall P items -> P (Sequence items).

Fixpoint YAML_induction (v : YAML) : P v :=
  match v with
  | Scalar t x => P_scalar t x
  | Mapping items =>
      P_mapping items
        ((fix all (l : odict YAML) : Forall (fun kv => P (snd kv)) l :=
            match l with
            | [] => Forall_nil _
            | kv :: l' => Forall_cons kv (YAML_induction (snd kv)) (all l')
            end) items)
  | Sequence items =>
      P_sequence items
        ((fix all (l : list YAML) : Forall P l :=
            match l with
            | [] => Forall_nil _
            | c :: l' => Forall_cons c (YAML_induction c) (all l')
            end) items)
  end.
End YAML_induction.

Definition TRUE_VALUES : list string := ["yes"; "true"; "on"; "1"; "y"].
Definition FALSE_VALUES : list string := ["no"; "false"; "off"; "0"; "n"].

Definition NL : string := String (ascii_of_nat 10) EmptyString.

Definition TOP_LEVEL_NAME : string := "container".

(** [value.get(k)] on a mapping: [None] for an absent key. *)
Definition get (v : YAML) (k : string) : result (option YAML) :=
  match v with
  | Mapping items => Ok (od_get k items)
  | _ => Raise TypeError
  end.

(** [k in value], asked of a mapping. *)
Definition has_key (k : string) (v : YAML) : bool :=
  match v with
  | Mapping items => match od_get k items with Some _ => true | None => false end
  | _ => false
  end.

(** [for x in node]: the items of a sequence, the keys of a mapping. *)
Definition iter (v : YAML) : result (list YAML) :=
  match v with
  | Sequence items => Ok items
  | Mapping items => Ok (map (fun kv => Scalar (fst kv) (PyStr (fst kv))) items)
  | Scalar _ _ => Raise TypeError
  end.

(** The node once the objects [iter] handed out have become [children]. *)
Definition with_children (v : YAML) (children : list YAML) : YAML :=
  match v with
  | Sequence _ => Sequence children
  | _ => v
  end.

(** [CatalogCard] *)
Record CatalogCard : Type := mkCatalogCard {
  name : string;
  of_type : string;
  parent : string;
  as_string : string
}.

(** ** Example documents *)

(** A scalar as the dirty load leaves it: its value is its text. *)
Definition raw (t : string) : YAML := Scalar t (PyStr t).

(** The example of the specification: a [ColumnPanel] form with one label. *)
Definition label_1 : YAML :=
  Mapping [("name", raw "label_1"); ("type", raw "Label");
           ("properties", Mapping [("text", raw "Hi"); ("visible", raw "true")])].

Definition label_form : YAML :=
  Mapping [("container", Mapping [("type", raw "ColumnPanel")]);
           ("components", Sequence [label_1])].

(** A component without properties, and one whose properties are empty. *)
Definition text_box : YAML :=
  Mapping [("name", raw "text_box_email"); ("type", raw "TextBox")].

Definition spacer : YAML :=
  Mapping [("name", raw "spacer_1"); ("type", raw "Spacer");
           ("properties", Mapping [])].

(** A container C with the children A and B, B a container with the child D. *)
Definition leaf (n : string) : YAML :=
  Mapping [("name", raw n); ("type", raw "Label")].

Definition panel (n : string) (children : list YAML) : YAML :=
  Mapping [("name", raw n); ("type", raw "ColumnPanel");
           ("components", Sequence children)].

Definition nested_panel : YAML := panel "C" [leaf "A"; panel "B" [leaf "D"]].


(** A component with an empty mapping among its properties. *)
Definition grid : YAML :=
  Mapping [("name", raw "grid_1"); ("type", raw "DataGrid");
           ("properties", Mapping [("role", raw "null"); ("columns", Mapping [])])].

(** A radio button as the Anvil designer writes it. *)
Definition radio_button : YAML :=
  Mapping [("name", raw "radio_btn_work"); ("type", raw "RadioButton");
           ("properties",
            Mapping [("role", raw "null"); ("selected", raw "false");
                     ("value", raw "1"); ("text", raw "Work ");
                     ("font", raw EmptyString)])].

(** What strictyaml's [Float] validator followed by [repr] makes of a
    text: the [repr] of the float it reads; the refusal of the validator,
    for a text that has not the shape of a decimal numeral; or the
    [ValueError] of Python's [float], for a text that has the shape and
    that [float] cannot read. *)
Inductive float_reading : Type :=
| Reads (repr : string)
| Refused
| Unreadable.

Definition is_digit (c : ascii) : bool :=
  (48 <=? nat_of_ascii c) && (nat_of_ascii c <=? 57).

(** A numeral without its leading zeros. *)
Fixpoint strip_zeros (s : string) : string :=
  match s with
  | String c (String _ _ as s') => if Ascii.eqb c "0"%char then strip_zeros s' else s
  | _ => s
  end.

(** The number of points of a text, and whether it holds a digit. *)
Definition points (t : string) : nat := count_occ ascii_dec (chars t) "."%char.

Definition has_digit (t : string) : bool := existsb is_digit (chars t).

(** strictyaml's [Float] on a text of digits and points: the text has the
    shape of a decimal numeral when it holds one point at most, and
    [float] reads it when it holds a digit. *)
Definition decimal_float (f : string -> float_reading) : Prop :=
  forall t,
    charset_le t "0123456789." = true ->
    match f t with
    | Reads _ => points t <= 1 /\ has_digit t = true
    | Refused => 2 <= points t
    | Unreadable => points t <= 1 /\ has_digit t = false
    end.

(** A runtime for the examples.  On a text of digits and points it decides
    as strictyaml does: a text with two points or more is refused, a text
    without a digit is let through and [float] cannot read it, and every
    other text is read.  The [repr] is Python's for a numeral of at most
    fifteen digits without a point (the digits without their leading
    zeros, then [.0]); the examples hold no other numeral that is read,
    and no nested value. *)
Definition example_float_repr (t : string) : float_reading :=
  if charset_le t "0123456789." then
    if 2 <=? points t then Refused
    else if negb (has_digit t) then Unreadable
    else if (points t =? 0) && (String.length t <=? 15)
    then Reads (strip_zeros t +++ ".0")
    else Reads t
  else Refused.

Definition example_container_str : pyval -> string := fun _ => EmptyString.


(** * The stand-ins for the runtime classes ([anvil/component.py])

    [Component] keeps the handlers of its events in a dictionary of lists,
    [Container] adds the list of its components.  The methods change the
    object in place and return nothing: here they return the object as it
    is after the call.  The lists of handlers are reached through the
    component only, and the handlers leave the component that calls them
    alone. *)

(** The exceptions of the runtime classes: [KeyError] and [TypeError], as
    in the generator, and [ValueError]. *)
Inductive py_exception : Type :=
| Exc (e : exception)
| ValueError.

Inductive outcome (A : Type) : Type :=
| Returns (a : A)
| Throws (e : py_exception).
Arguments Returns {A} a.
Arguments Throws {A} e.

(** [d.get(k, default)] *)
Definition od_get_default {A : Type} (k : string) (default : A) (d : odict A) : A :=
  match od_get k d with
  | Some a => a
  | None => default
  end.

(** [d.pop(k, None)], the value popped left aside. *)
Definition od_pop {A : Type} (k : string) (d : odict A) : odict A :=
  filter (fun kv => negb (String.eqb (fst kv) k)) d.

Section Runtime.

(** The function objects given as handlers, told apart as [==] tells them
    apart; the keyword arguments of an event; what the handlers act on,
    and what a call of a handler does; the objects put in a container. *)
Context {Handler : Type}.
Variable Handler_eq_dec : forall f g : Handler, {f = g} + {f <> g}.
Context {Args World : Type}.
Variable call : Handler -> Args -> World -> outcome World.
Context {Child : Type}.

(** [x == y] for what a list of handlers holds: a function or [None]. *)
Definition same_handler (x y : option Handler) : bool :=
  match x, y with
  | Some f, Some g => if Handler_eq_dec f g then true else false
  | None, None => true
  | _, _ => false
  end.

(** [l.remove(x)]: the first item equal to [x] goes; [ValueError] when
    there is none. *)
Fixpoint list_remove (x : option Handler) (l : list (option Handler))
  : outcome (list (option Handler)) :=
  match l with
  | [] => Throws ValueError
  | y :: l' =>
      if same_handler y x then Returns l'
      else match list_remove x l' with
           | Returns l'' => Returns (y :: l'')
           | Throws e => Throws e
           end
  end.

(** [Component] (lines 30-66) *)
Record Component : Type := mkComponent {
  _events : odict (list (option Handler))
}.

(** [add_event_handler] (lines 34-38) *)
Definition add_event_handler (self : Component) (event_name : string)
    (handler_func : option Handler) : Component :=
  let ev := od_get_default event_name [] (_events self) in
  let ev := ev ++ [handler_func] in
  mkComponent (od_update (_events self) [(event_name, ev)]).

(** [get_event_handlers] (lines 40-42) *)
Definition get_event_handlers (self : Component) (event_name : string)
  : list (option Handler) :=
  od_get_default event_name [] (_events self).

(** Every [ev] of a list called with the event arguments, up to the
    first exception; [None] is not callable. *)
Fixpoint call_each (l : list (option Handler)) (event_args : Args) (w : World)
  : outcome World :=
  match l with
  | [] => Returns w
  | ev :: l' =>
      match ev with
      | Some f =>
          match call f event_args w with
          | Returns w' => call_each l' event_args w'
          | Throws e => Throws e
          end
      | None => Throws (Exc TypeError)
      end
  end.

(** [raise_event] (lines 44-47) *)
Definition raise_event (self : Component) (event_name : string) (event_args : Args)
    (w : World) : outcome World :=
  call_each (od_get_default event_name [] (_events self)) event_args w.

(** [remove_event_handler] (lines 49-54) *)
Definition remove_event_handler (self : Component) (event_name : string)
    (handler_func : option Handler) : outcome Component :=
  match handler_func with
  | None => Returns (mkComponent (od_pop event_name (_events self)))
  | Some _ =>
      match od_get event_name (_events self) with
      | None => Throws (Exc (KeyError event_name))
      | Some l =>
          match list_remove handler_func l with
          | Returns l' => Returns (mkComponent (od_replace event_name l' (_events self)))
          | Throws e => Throws e
          end
      end
  end.

(** [set_event_handler] (lines 64-66) *)
Definition set_event_handler (self : Component) (event_name : string)
    (handler_func : option Handler) : Component :=
  mkComponent (od_set event_name [handler_func] (_events self)).

(** [Container] (lines 69-98): a component with a list of components. *)
Record Container : Type := mkContainer {
  component : Component;
  _components : list Child
}.

(** [add_component] (lines 73-79), with the keyword argument [index] an
    integer or absent.  [list.insert] is called with one argument, which
    it refuses. *)
Definition add_component (self : Container) (c : Child) (index : option BinNums.Z)
  : outcome Container :=
  if match index with
     | Some i => negb (BinInt.Z.eqb i BinNums.Z0)
     | None => false
     end
  then Throws (Exc TypeError)
  else Returns (mkContainer (component self) (_components self ++ [c])).

(** [clear] (lines 81-83) *)
Definition clear (self : Container) : Container :=
  mkContainer (component self) [].

(** [get_components] (lines 85-87) *)
Definition get_components (self : Container) : list Child := _components self.

End Runtime.

(** Handlers for the examples: a handler is a number, a call of it adds
    the number to a log. *)
Definition example_call (f : nat) (event_args : unit) (log : list nat)
  : outcome (list nat) :=
  Returns (log ++ [f]).

(** ** Further examples *)

(** A label whose properties hold a key [parent]. *)
Definition framed_label : YAML :=
  Mapping [("name", raw "label_2"); ("type", raw "Label");
           ("properties", Mapping [("parent", raw "panel_1"); ("text", raw "Bye")])].

(** A form with a leaf and a panel that share the name B. *)
Definition twin_form : YAML :=
  Mapping [("container", Mapping [("type", raw "ColumnPanel")]);
           ("components", Sequence [leaf "B"; panel "B" [leaf "A"]])].


(** A label whose first property is a point without digits, and whose
    second is an empty mapping. *)
Definition dotted_label : YAML :=
  Mapping [("name", raw "label_3"); ("type", raw "Label");
           ("properties", Mapping [("width", raw "."); ("columns", Mapping [])])].

(** A component with handlers for [click], and a container of names. *)
Definition clicked : @Component nat :=
  mkComponent [("click", [Some 1; Some 2; Some 1])].

Definition shelf : @Container nat string :=
  mkContainer (mkComponent []) ["a"].
Section Generator.

(** What the generator takes from its runtime and this development leaves
    open, binary floating point and the printing of nested values:
    - [float_repr t] is strictyaml's [Float] validator on the text [t]
      followed by [repr]: the float that is read, the refusal of the
      validator, or the [ValueError] of [float];
    - [container_str v] is Python's [str] of a list or dictionary. *)
Variable float_repr : string -> float_reading.
Variable container_str : pyval -> string.

(** A scalar validator applied to the text of a scalar. *)
Definition validate_scalar (schema : Validator) (t : string) : result pyval :=
  match schema with
  | Str => Ok (PyStr t)
  | Bool =>
      if mem_string (lower t) TRUE_VALUES then Ok (PyBool true)
      else if mem_string (lower t) FALSE_VALUES then Ok (PyBool false)
      else Raise ValidationError
  | NullNone => if String.eqb (lower t) "null" then Ok PyNone else Raise ValidationError
  | Float =>
      match float_repr t with
      | Reads r => Ok (PyFloat r)
      | Refused => Raise ValidationError
      | Unreadable => Raise PyValueError
      end
  | EmptyDict => if String.eqb t EmptyString then Ok (PyDict []) else Raise ValidationError
  | EmptyList => if String.eqb t EmptyString then Ok (PyList []) else Raise ValidationError
  end.

(** [value.revalidate(schema)] for the validators above, all of them
    scalar validators: a scalar takes the value the validator computes
    from its text, a mapping or a sequence is refused. *)
Definition revalidate (value : YAML) (schema : Validator) : result YAML :=
  match value with
  | Scalar t _ => x <- validate_scalar schema t ;; Ok (Scalar t x)
  | _ => Raise ValidationError
  end.

(** [validate_text] (lines 64-73) *)
Definition validate_text (value : YAML) : result YAML :=
  t <- text_of value ;;
  if mem_string t ["true"; "false"] then revalidate value Bool
  else if mem_string t ["null"] then revalidate value NullNone
  else if mem_string t [EmptyString] then revalidate value Str
  else if charset_le t "0123456789." then revalidate value Float
  else Ok value.

(** [validate_yaml] (lines 76-93).  The result is [value] after the call.
    The last branch of the source, for a node that is neither a mapping,
    a sequence nor a scalar, has no counterpart: [YAML] has no such node. *)
Fixpoint validate_yaml (fuel : nat) (value : YAML) (sequence_key : index)
  : result YAML :=
  match fuel with
  | O => Raise OutOfFuel
  | S fuel' =>
      child <- getitem value sequence_key ;;
      match child with
      | Mapping items =>
          if len child =? 0 then revalidate value EmptyDict
          else
            child' <- for_each (map fst items)
                        (fun c key => validate_yaml fuel' c (Key key)) child ;;
            Ok (store value sequence_key child')
      | Sequence items =>
          if len child =? 0 then revalidate value EmptyList
          else
            child' <- for_each (seq 0 (len child))
                        (fun c ix => validate_yaml fuel' c (Ix ix)) child ;;
            Ok (store value sequence_key child')
      | Scalar _ _ =>
          child' <- validate_text child ;;
          Ok (store value sequence_key child')
      end
  end.

(** [to_camel_case] (lines 96-98) *)
Definition to_camel_case (snake_str : string) : string :=
  let components := split "_"%char snake_str in
  join (map title components).

(** [str(value)], as [Template.substitute] applies it. *)
Definition py_str (v : pyval) : string :=
  match v with
  | PyNone => "None"
  | PyBool true => "True"
  | PyBool false => "False"
  | PyFloat r => r
  | PyStr s => s
  | PyList _ | PyDict _ => container_str v
  end.

(** [Template("    $key = $value,\n").substitute(key=key, value=value)] *)
Definition kwargs_template (key value : string) : string :=
  "    " +++ key +++ " = " +++ value +++ "," +++ NL.

(** The loop body of [dict2string]: the value as it is substituted. *)
Definition kwarg_value (key value : pyval) : pyval :=
  match value with
  | PyStr s =>
      if negb (key_eqb key (PyStr "parent")) then PyStr ("'" +++ s +++ "'") else value
  | _ => value
  end.

(** [dict2string] (lines 101-110) *)
Definition dict2string (dict_name : string) (of_dict : pydict) : string :=
  fold_left
    (fun kwargs_string kv =>
       let value := kwarg_value (fst kv) (snd kv) in
       kwargs_string +++ kwargs_template (py_str (fst kv)) (py_str value))
    of_dict EmptyString.

(** [add_properties] (lines 113-122): the node after the call and the
    dictionary that is returned. *)
Definition add_properties (value : YAML) (parent : string)
  : result (YAML * pydict) :=
  let attrs : pydict := [] in
  properties <- get value "properties" ;;
  if match properties with Some p => len p | None => 0 end =? 0 then
    Ok (value, attrs)
  else
    value <- validate_yaml (S (depth value)) value (Key "properties") ;;
    properties <- getitem value (Key "properties") ;;
    attrs <- dict_update attrs (data properties) ;;
    attrs <- dict_update attrs (PyDict [("parent", PyStr "Container()")]) ;;
    Ok (value, attrs).

(** [lowest_level_component] (lines 133-145).  The source reads
    [value['name'].text] a second time for the unused first argument of
    [dict2string]; [add_properties] does not touch [name]. *)
Definition lowest_level_component (value : YAML) (parent : string)
  : result (YAML * CatalogCard) :=
  n <- getitem value (Key "name") ;;
  name_text <- text_of n ;;
  let name := to_camel_case name_text in
  t <- getitem value (Key "type") ;;
  of_type <- text_of t ;;
  r <- add_properties value parent ;;
  let attrs_as_string := dict2string name_text (snd r) in
  Ok (fst r, mkCatalogCard name of_type parent attrs_as_string).

(** [derive_dict] (lines 148-178), in the order of the source: the name of
    the node ([own_name]), the descent into its components ([descend]),
    and the card built from the node and put in the catalog
    ([insert_card]). *)

(** Lines 161-167: the name of the node, and whether it is the top level. *)
Definition own_name (value : YAML) (parent : string) : result (string * bool) :=
  match getitem value (Key "name") with
  | Ok n => t <- text_of n ;; Ok (t, false)
  | Raise (KeyError _) => Ok (parent, true)
  | Raise e => Raise e
  end.

(** The loop of lines 171-173: the children as they are after their calls,
    and the catalog. *)
Definition derive_children
    (derive : YAML -> odict CatalogCard -> string -> result (YAML * odict CatalogCard))
    (children : list YAML) (catalog : odict CatalogCard) (parent : string)
  : result (list YAML * odict CatalogCard) :=
  for_each children
    (fun s component =>
       r <- derive component (snd s) parent ;;
       Ok (fst s ++ [fst r], snd r))
    ([], catalog).

(** Lines 168-173: the node, the catalog and [parent] after the descent. *)
Definition descend
    (derive : YAML -> odict CatalogCard -> string -> result (YAML * odict CatalogCard))
    (value : YAML) (catalog : odict CatalogCard) (parent name : string)
  : result (YAML * odict CatalogCard * string) :=
  if has_key "components" value then
    let parent := name in
    components <- getitem value (Key "components") ;;
    children <- iter components ;;
    r <- derive_children derive children catalog parent ;;
    Ok (store value (Key "components") (with_children components (fst r)),
        snd r, parent)
  else Ok (value, catalog, parent).

(** Lines 174-177: at the top level the card is built from the [container]
    node, named [TOP_LEVEL_NAME]; the catalog key is [name] either way. *)
Definition insert_card (top_level : bool) (value : YAML)
    (catalog : odict CatalogCard) (parent name : string)
  : result (YAML * odict CatalogCard) :=
  if top_level then
    container <- get value "container" ;;
    match container with
    | None => Raise TypeError
    | Some c =>
        c <- setitem c "name" (Scalar TOP_LEVEL_NAME (PyStr TOP_LEVEL_NAME)) ;;
        r <- lowest_level_component c parent ;;
        Ok (store value (Key "container") (fst r), od_set name (snd r) catalog)
    end
  else
    r <- lowest_level_component value parent ;;
    Ok (fst r, od_set name (snd r) catalog).

Fixpoint derive_dict (fuel : nat) (value : YAML) (catalog : odict CatalogCard)
    (parent : string) : result (YAML * odict CatalogCard) :=
  match fuel with
  | O => Raise OutOfFuel
  | S fuel' =>
      nt <- own_name value parent ;;
      st <- descend (derive_dict fuel') value catalog parent (fst nt) ;;
      insert_card (snd nt) (fst (fst st)) (snd (fst st)) (snd st) (fst nt)
  end.

Definition HEADER : string :=
  "from _anvil_designer.componentsUI.anvil import *" +++ NL +++ NL.

(** The initializer every generated class ends with. *)
Definition INITIALIZER : string :=
  "    def init_components(self, **kwargs):" +++ NL +++
  "        super().__init__()        " +++ NL +++
  "        pass" +++ NL.

Definition FOOTER : string :=
  NL +++
  "    # not sure why, but item is not in the official api docs so must add here" +++ NL +++
  "    item = dict()" +++ NL +++
  NL +++
  INITIALIZER.

(** The loop of [yaml2definition] over the catalog: [default_string] and
    [attr_string]. *)
Definition emit_catalog (catalog : odict CatalogCard) (form_name : string)
  : string * string :=
  let TAB := "    " in
  fold_left
    (fun s kv =>
       let key := fst kv in
       let item := snd kv in
       if String.eqb key form_name then s
       else (fst s +++ name item +++ " = dict(" +++ NL +++ as_string item +++ ")" +++ NL,
             snd s +++ TAB +++ key +++ " = " +++ of_type item +++ "(**" +++ name item +++ ")" +++ NL))
    catalog (EmptyString, EmptyString).

(** [yaml2definition] (lines 181-214): the document after the run and the
    generated text. *)
Definition yaml2definition (parsed : YAML) (form_name : string)
  : result (YAML * string) :=
  r <- derive_dict (S (depth parsed)) parsed [] form_name ;;
  let catalog := snd r in
  let default_string := fst (emit_catalog catalog form_name) in
  let attr_string := snd (emit_catalog catalog form_name) in
  match od_get form_name catalog with
  | None => Raise (KeyError form_name)
  | Some form =>
      Ok (fst r,
          HEADER +++ default_string +++
          "class " +++ form_name +++ "Template(" +++ of_type form +++ "):" +++ NL +++
          attr_string +++ FOOTER)
  end.

(** ** Notions the statements below are written with *)

(** The document with every scalar put back to its raw text. *)
Fixpoint erase (v : YAML) : YAML :=
  match v with
  | Scalar t _ => raw t
  | Mapping items => Mapping (map (fun kv => (fst kv, erase (snd kv))) items)
  | Sequence items => Sequence (map erase items)
  end.

(** What [validate_yaml] does to the child it is pointed at. *)
Definition normalize (fuel : nat) (child : YAML) : result YAML :=
  match child with
  | Mapping items =>
      if len child =? 0 then Raise ValidationError
      else for_each (map fst items)
             (fun c key => validate_yaml fuel c (Key key)) child
  | Sequence items =>
      if len child =? 0 then Raise ValidationError
      else for_each (seq 0 (len child))
             (fun c ix => validate_yaml fuel c (Ix ix)) child
  | Scalar _ _ => validate_text child
  end.

(** The characters a numeric text is made of. *)
Definition numeric_text (t : string) : Prop :=
  Forall (fun c => In c (chars "0123456789.")) (chars t).

(** A call that is passed [**kwargs] occurs in the text. *)
Definition passes_kwargs (text : string) : bool := contains "(**kwargs)" text.

(** The children [derive_dict] descends into. *)
Definition children_of (v : YAML) : result (list YAML) :=
  if has_key "components" v then
    components <- getitem v (Key "components") ;; iter components
  else Ok [].

(** The node once its children have become [children]. *)
Definition with_components (v : YAML) (children : list YAML) : YAML :=
  match getitem v (Key "components") with
  | Ok components => store v (Key "components") (with_children components children)
  | Raise _ => v
  end.

(** [parent] as it is after the descent. *)
Definition inner_parent (v : YAML) (parent name : string) : string :=
  if has_key "components" v then name else parent.

(** The node and the card that [insert_card] computes. *)
Definition entry (top_level : bool) (value : YAML) (parent : string)
  : result (YAML * CatalogCard) :=
  if top_level then
    container <- get value "container" ;;
    match container with
    | None => Raise TypeError
    | Some c =>
        c <- setitem c "name" (raw TOP_LEVEL_NAME) ;;
        r <- lowest_level_component c parent ;;
        Ok (store value (Key "container") (fst r), snd r)
    end
  else lowest_level_component value parent.

(** The loop over the children, child by child: the children and the
    catalog before, the children and the catalog after. *)
Inductive children_run
    (derive : YAML -> odict CatalogCard -> string -> result (YAML * odict CatalogCard))
    (parent : string)
  : list YAML -> odict CatalogCard -> list YAML -> odict CatalogCard -> Prop :=
| run_nil (catalog : odict CatalogCard) : children_run derive parent [] catalog [] catalog
| run_cons (c : YAML) (cs : list YAML) (catalog : odict CatalogCard)
    (c' : YAML) (catalog1 : odict CatalogCard)
    (cs' : list YAML) (catalog2 : odict CatalogCard) :
    derive c catalog parent = Ok (c', catalog1) ->
    children_run derive parent cs catalog1 cs' catalog2 ->
    children_run derive parent (c :: cs) catalog (c' :: cs') catalog2.

(** The component tree of a document, by catalog key: a node is keyed by
    its [name], a node without a name by the name handed down to it, and
    its children are the items of its [components] sequence. *)
Inductive tree : Type := Node (key : string) (children : list tree).

Fixpoint postorder (t : tree) : list string :=
  match t with
  | Node key children => flat_map postorder children ++ [key]
  end.

Fixpoint component_tree (v : YAML) (parent : string) : tree :=
  match v with
  | Mapping items =>
      let name :=
        match od_get "name" items with
        | Some (Scalar t _) => t
        | _ => parent
        end in
      Node name
        ((fix components (l : odict YAML) : list tree :=
            match l with
            | [] => []
            | (k, c) :: l' =>
                if String.eqb k "components" then
                  match c with
                  | Sequence cs => map (fun x => component_tree x name) cs
                  | _ => []
                  end
                else components l'
            end) items)
  | _ => Node parent []
  end.

(** [s] is [t] or a node below it. *)
Inductive subtree (s : tree) : tree -> Prop :=
| subtree_here : subtree s s
| subtree_below (key : string) (children : list tree) (c : tree) :
    In c children -> subtree s c -> subtree s (Node key children).

Definition tree_key (t : tree) : string :=
  match t with Node key _ => key end.

Definition tree_children (t : tree) : list tree :=
  match t with Node _ children => children end.

(** The lines [dict2string] joins, one per entry of the dictionary. *)
Definition dict2lines (of_dict : pydict) : list string :=
  map (fun kv =>
         kwargs_template (py_str (fst kv)) (py_str (kwarg_value (fst kv) (snd kv))))
      of_dict.

(** A dictionary with text keys among the dictionaries with any keys. *)
Definition text_keys (d : odict pyval) : pydict :=
  map (fun kv => (PyStr (fst kv), snd kv)) d.

Definition is_str (x : pyval) : bool :=
  match x with PyStr _ => true | _ => false end.

(** The line of a property: its value between quotes when it is a string,
    as [str] prints it otherwise. *)
Definition property_line (kv : string * YAML) : string :=
  kwargs_template (fst kv)
    (if is_str (data (snd kv))
     then "'" +++ py_str (data (snd kv)) +++ "'"
     else py_str (data (snd kv))).

(** The line of the synthetic [parent] entry. *)
Definition parent_line : string := kwargs_template "parent" "Container()".

(** The property block of the label example, as the generator prints it. *)
Definition label_block : string :=
  "Label1 = dict(" +++ NL +++
  "    text = 'Hi'," +++ NL +++
  "    visible = True," +++ NL +++
  "    parent = Container()," +++ NL +++
  ")" +++ NL.

(** The same block under the raw name of the component. *)
Definition label_block_raw_name : string :=
  "label_1 = dict(" +++ NL +++
  "    text = 'Hi'," +++ NL +++
  "    visible = True," +++ NL +++
  "    parent = Container()," +++ NL +++
  ")".








(** ** Notions for the further properties *)

(** Whether the last character of [s] is a letter; [cased] when [s] is
    empty. *)
Fixpoint cased_after (cased : bool) (s : string) : bool :=
  match s with
  | EmptyString => cased
  | String c s' => cased_after (is_lower c || is_upper c) s'
  end.

(** Title case with the underscores left out, in one pass over the text:
    a letter is put in upper case when no letter stands before it, in lower
    case otherwise, and an underscore is dropped. *)
Fixpoint camel (cased : bool) (s : string) : string :=
  match s with
  | EmptyString => EmptyString
  | String c s' =>
      if Ascii.eqb c "_" then camel false s'
      else if is_lower c then String (if cased then c else to_upper c) (camel true s')
      else if is_upper c then String (if cased then to_lower c else c) (camel true s')
      else String c (camel false s')
  end.

(** The first character of [s], if it has one, is not a letter. *)
Definition no_letter_first (s : string) : Prop :=
  match s with
  | EmptyString => True
  | String c _ => is_lower c = false /\ is_upper c = false
  end.

(** The line a property of the block gives when a property may be keyed
    [parent]: such a property gives way to the synthetic entry. *)
Definition block_line (kv : string * YAML) : string :=
  if String.eqb (fst kv) "parent" then parent_line else property_line kv.

(** An empty mapping or sequence: the node itself, or a node reached from
    it through keys and positions. *)
Inductive holds_empty : YAML -> Prop :=
| empty_mapping : holds_empty (Mapping [])
| empty_sequence : holds_empty (Sequence [])
| empty_under_key (k : string) (c : YAML) (items : odict YAML) :
    od_get k items = Some c -> holds_empty c -> holds_empty (Mapping items)
| empty_at_position (i : nat) (c : YAML) (items : list YAML) :
    nth_error items i = Some c -> holds_empty c -> holds_empty (Sequence items).

(** The block and the attribute line that [yaml2definition] writes for an
    entry of the catalog, and the entries it writes them for. *)
Definition card_block (kv : string * CatalogCard) : string :=
  name (snd kv) +++ " = dict(" +++ NL +++ as_string (snd kv) +++ ")" +++ NL.

Definition attr_line (kv : string * CatalogCard) : string :=
  "    " +++ fst kv +++ " = " +++ of_type (snd kv) +++ "(**" +++ name (snd kv) +++ ")" +++ NL.

Definition emitted (catalog : odict CatalogCard) (form_name : string)
  : odict CatalogCard :=
  filter (fun kv => negb (String.eqb (fst kv) form_name)) catalog.

(** The number of line breaks of a text: each one ends a line. *)
Fixpoint line_breaks (s : string) : nat :=
  match s with
  | EmptyString => 0
  | String c s' => (if Ascii.eqb c (ascii_of_nat 10) then 1 else 0) + line_breaks s'
  end.

(** The line breaks inside the line of a property: those of its key and
    of its value as it is printed. *)
Definition inner_breaks (kv : string * YAML) : nat :=
  line_breaks (fst kv) + line_breaks (py_str (data (snd kv))).

(** A text of ASCII characters: on such a text the letters of [title] and
    [lower] are the letters of Python's [str.title] and [str.lower]. *)
Definition ascii_text (s : string) : Prop :=
  forallb (fun c => nat_of_ascii c <? 128) (chars s) = true.

(** ** Texts and dictionaries *)

Lemma mem_ascii_In (c : ascii) (l : list ascii) : mem_ascii c l = true <-> In c l.
Proof.
  unfold mem_ascii. rewrite existsb_exists. split.
  - intros [y [Hy E]]. apply Ascii.eqb_eq in E. now subst.
  - intros H. exists c. split; [assumption | apply Ascii.eqb_refl].
Qed.

Lemma charset_le_spec (s t : string) :
  charset_le s t = true <-> Forall (fun c => In c (chars t)) (chars s).
Proof.
  unfold charset_le. rewrite forallb_forall, Forall_forall.
  split; intros H c Hc; apply mem_ascii_In; auto.
Qed.

Lemma mem_string_In (s : string) (l : list string) : mem_string s l = true <-> In s l.
Proof.
  unfold mem_string. rewrite existsb_exists. split.
  - intros [y [Hy E]]. apply String.eqb_eq in E. now subst.
  - intros H. exists s. split; [assumption | apply String.eqb_refl].
Qed.

Lemma mem_string_false (s : string) (l : list string) :
  ~ In s l -> mem_string s l = false.
Proof.
  intros H. destruct (mem_string s l) eqn:E; [| reflexivity].
  apply mem_string_In in E. contradiction.
Qed.

(** ** The retyping rule *)

(** C3 (as amended).  [validate_text] retypes a scalar by its text [t]:
    "true" and "false" become booleans, "null" becomes None, the empty
    text becomes the empty string, and any text that is none of these and
    holds a character other than a digit or a point is left as it is.  A
    non-empty text made of digits and points only is handed to the
    floating-point validator, and becomes a float only when the validator
    reads it: otherwise the call raises, the refusal of the validator or
    the [ValueError] of [float].  With strictyaml's validator the text is
    read when it holds one point at most and a digit, is refused when it
    holds two points or more, and raises [ValueError] when it holds a
    point and no digit. *)
Theorem validate_text_retyping (t : string) (x : pyval) :
  (t = "true" -> validate_text (Scalar t x) = Ok (Scalar t (PyBool true)))
  /\ (t = "false" -> validate_text (Scalar t x) = Ok (Scalar t (PyBool false)))
  /\ (t = "null" -> validate_text (Scalar t x) = Ok (Scalar t PyNone))
  /\ (t = EmptyString -> validate_text (Scalar t x) = Ok (Scalar t (PyStr EmptyString)))
  /\ (t <> EmptyString -> numeric_text t ->
      validate_text (Scalar t x) = revalidate (Scalar t x) Float
      /\ validate_text (Scalar t x) =
         match float_repr t with
         | Reads r => Ok (Scalar t (PyFloat r))
         | Refused => Raise ValidationError
         | Unreadable => Raise PyValueError
         end)
  /\ (t <> EmptyString -> numeric_text t -> decimal_float float_repr ->
      (points t <= 1 -> has_digit t = true ->
       exists r, validate_text (Scalar t x) = Ok (Scalar t (PyFloat r)))
      /\ (2 <= points t -> validate_text (Scalar t x) = Raise ValidationError)
      /\ (points t <= 1 -> has_digit t = false ->
          validate_text (Scalar t x) = Raise PyValueError))
  /\ (t <> "true" -> t <> "false" -> t <> "null" -> t <> EmptyString -> ~ numeric_text t ->
      validate_text (Scalar t x) = Ok (Scalar t x)).
Proof.
  assert (Hfloat : t <> EmptyString -> numeric_text t ->
            validate_text (Scalar t x) = revalidate (Scalar t x) Float
            /\ validate_text (Scalar t x) =
               match float_repr t with
               | Reads r => Ok (Scalar t (PyFloat r))
               | Refused => Raise ValidationError
               | Unreadable => Raise PyValueError
               end).
  { intros Hne Hnum.
    assert (E : validate_text (Scalar t x) = revalidate (Scalar t x) Float).
    { unfold validate_text. cbn [text_of bind].
      assert (Hbool : mem_string t ["true"; "false"] = false).
      { apply mem_string_false. intros [<- | [<- | []]];
          apply charset_le_spec in Hnum; discriminate Hnum. }
      assert (Hnull : mem_string t ["null"] = false).
      { apply mem_string_false. intros [<- | []].
        apply charset_le_spec in Hnum. discriminate Hnum. }
      assert (Hemp : mem_string t [EmptyString] = false).
      { apply mem_string_false. intros [<- | []]. now apply Hne. }
      rewrite Hbool, Hnull, Hemp.
      apply charset_le_spec in Hnum. rewrite Hnum. reflexivity. }
    split; [exact E |]. rewrite E.
    unfold revalidate, validate_scalar. destruct (float_repr t); reflexivity. }
  repeat apply conj.
  - intros ->. reflexivity.
  - intros ->. reflexivity.
  - intros ->. reflexivity.
  - intros ->. reflexivity.
  - intros Hne Hnum. now apply Hfloat.
  - intros Hne Hnum Hd. destruct (Hfloat Hne Hnum) as [_ E]. rewrite E.
    apply charset_le_spec in Hnum. specialize (Hd t Hnum).
    destruct (float_repr t) as [r | |]; repeat apply conj; intros;
      try reflexivity; try (now exists r); try lia; destruct Hd; congruence.
  - intros H1 H2 H3 H4 Hnum. unfold validate_text. cbn [text_of bind].
    rewrite (mem_string_false t ["true"; "false"]) by (intros [<- | [<- | []]]; congruence).
    rewrite (mem_string_false t ["null"]) by (intros [<- | []]; congruence).
    rewrite (mem_string_false t [EmptyString]) by (intros [<- | []]; congruence).
    destruct (charset_le t "0123456789.") eqn:E; [| reflexivity].
    apply charset_le_spec in E. contradiction.
Qed.


(** ** Dictionaries and lists *)

Lemma od_get_replace_same {A : Type} (k : string) (a : A) (d : odict A) :
  od_get k (od_replace k a d) =
  match od_get k d with Some _ => Some a | None => None end.
Proof.
  induction d as [| [k' a'] d IH]; simpl; [reflexivity |].
  destruct (String.eqb k' k) eqn:E; simpl; rewrite E; [reflexivity | exact IH].
Qed.

Lemma od_get_replace_other {A : Type} (k k' : string) (a : A) (d : odict A) :
  k <> k' -> od_get k' (od_replace k a d) = od_get k' d.
Proof.
  intros Hne. induction d as [| [k0 a0] d IH]; simpl; [reflexivity |].
  destruct (String.eqb k0 k) eqn:E; simpl.
  - apply String.eqb_eq in E. subst k0.
    destruct (String.eqb k k') eqn:E'; [| reflexivity].
    apply String.eqb_eq in E'. contradiction.
  - rewrite IH. reflexivity.
Qed.

Lemma od_replace_id {A : Type} (k : string) (a : A) (d : odict A) :
  od_get k d = Some a -> od_replace k a d = d.
Proof.
  induction d as [| [k' a'] d IH]; simpl; [reflexivity |].
  destruct (String.eqb k' k) eqn:E; intros H.
  - now inversion H.
  - now rewrite IH.
Qed.

Lemma od_get_set_same {A : Type} (k : string) (a : A) (d : odict A) :
  od_get k (od_set k a d) = Some a.
Proof.
  induction d as [| [k' a'] d IH]; simpl.
  - now rewrite String.eqb_refl.
  - destruct (String.eqb k' k) eqn:E; simpl; rewrite E; [reflexivity | exact IH].
Qed.

Lemma od_get_set_other {A : Type} (k k' : string) (a : A) (d : odict A) :
  k <> k' -> od_get k' (od_set k a d) = od_get k' d.
Proof.
  intros Hne. induction d as [| [k0 a0] d IH]; simpl.
  - destruct (String.eqb k k') eqn:E; [| reflexivity].
    apply String.eqb_eq in E. contradiction.
  - destruct (String.eqb k0 k) eqn:E; simpl.
    + apply String.eqb_eq in E. subst k0.
      destruct (String.eqb k k') eqn:E'; [| reflexivity].
      apply String.eqb_eq in E'. contradiction.
    + rewrite IH. reflexivity.
Qed.

Lemma od_set_id {A : Type} (k : string) (a : A) (d : odict A) :
  od_get k d = Some a -> od_set k a d = d.
Proof.
  induction d as [| [k' a'] d IH]; simpl; [discriminate |].
  destruct (String.eqb k' k) eqn:E; intros H.
  - now inversion H.
  - now rewrite IH.
Qed.

Lemma od_get_In {A : Type} (k : string) (a : A) (d : odict A) :
  od_get k d = Some a -> In (k, a) d.
Proof.
  induction d as [| [k' a'] d IH]; simpl; [discriminate |].
  destruct (String.eqb k' k) eqn:E; intros H.
  - apply String.eqb_eq in E. inversion H. subst. now left.
  - right. auto.
Qed.

Lemma nth_error_replace_same {A : Type} (i : nat) (a : A) (l : list A) :
  i < List.length l -> nth_error (list_replace i a l) i = Some a.
Proof.
  revert i. induction l as [| x l IH]; intros [| i]; simpl; try lia; auto.
  intros H. apply IH. lia.
Qed.

Lemma nth_error_replace_other {A : Type} (i j : nat) (a : A) (l : list A) :
  i <> j -> nth_error (list_replace i a l) j = nth_error l j.
Proof.
  revert i j. induction l as [| x l IH]; intros [| i] [| j]; simpl; try congruence; auto.
Qed.

Lemma list_replace_id {A : Type} (i : nat) (a : A) (l : list A) :
  nth_error l i = Some a -> list_replace i a l = l.
Proof.
  revert i. induction l as [| x l IH]; intros [| i]; simpl; try discriminate.
  - intros H. now inversion H.
  - intros H. now rewrite IH.
Qed.

(** ** Reading and storing children *)

Lemma getitem_store_same (v : YAML) (ix : index) (c c' : YAML) :
  getitem v ix = Ok c -> getitem (store v ix c') ix = Ok c'.
Proof.
  destruct v as [t x | items | items], ix as [k | i]; simpl; try discriminate.
  - rewrite od_get_replace_same. destruct (od_get k items); [reflexivity | discriminate].
  - destruct (nth_error items i) eqn:E; [| discriminate]. intros _.
    rewrite nth_error_replace_same; [reflexivity |].
    apply nth_error_Some. congruence.
Qed.

Lemma getitem_store_other (v : YAML) (ix ix' : index) (c' : YAML) :
  ix <> ix' -> getitem (store v ix c') ix' = getitem v ix'.
Proof.
  intros Hne.
  destruct v as [t x | items | items], ix as [k | i], ix' as [k' | i']; simpl;
    try reflexivity.
  - rewrite od_get_replace_other; [reflexivity | congruence].
  - rewrite nth_error_replace_other; [reflexivity | congruence].
Qed.

Lemma store_id (v : YAML) (ix : index) (c : YAML) :
  getitem v ix = Ok c -> store v ix c = v.
Proof.
  destruct v as [t x | items | items], ix as [k | i]; simpl; try discriminate.
  - destruct (od_get k items) eqn:E; [| discriminate].
    intros H. inversion H. subst. now rewrite od_replace_id.
  - destruct (nth_error items i) eqn:E; [| discriminate].
    intros H. inversion H. subst. now rewrite list_replace_id.
Qed.

Lemma getitem_parent (v : YAML) (ix : index) (c : YAML) :
  getitem v ix = Ok c -> is_scalar v = false.
Proof.
  destruct v; [destruct ix; discriminate | reflexivity | reflexivity].
Qed.

Lemma erase_od_replace (k : string) (c c' : YAML) (items : odict YAML) :
  od_get k items = Some c -> erase c' = erase c ->
  map (fun kv => (fst kv, erase (snd kv))) (od_replace k c' items) =
  map (fun kv => (fst kv, erase (snd kv))) items.
Proof.
  intros Hget He. induction items as [| [k0 c0] items IH]; simpl in *; [reflexivity |].
  destruct (String.eqb k0 k); simpl.
  - inversion Hget. subst. now rewrite He.
  - now rewrite IH.
Qed.

Lemma erase_list_replace (i : nat) (c c' : YAML) (items : list YAML) :
  nth_error items i = Some c -> erase c' = erase c ->
  map erase (list_replace i c' items) = map erase items.
Proof.
  revert i. induction items as [| c0 items IH]; intros [| i]; simpl; try discriminate.
  - intros H He. inversion H. subst. now rewrite He.
  - intros H He. now rewrite (IH i).
Qed.

Lemma erase_store (v : YAML) (ix : index) (c c' : YAML) :
  getitem v ix = Ok c -> erase c' = erase c -> erase (store v ix c') = erase v.
Proof.
  destruct v as [t x | items | items], ix as [k | i]; simpl; try discriminate.
  - destruct (od_get k items) eqn:E; [| discriminate].
    intros H He. inversion H. subst. f_equal. now apply erase_od_replace with (c := c).
  - destruct (nth_error items i) eqn:E; [| discriminate].
    intros H He. inversion H. subst. f_equal. now apply erase_list_replace with (c := c).
Qed.

Lemma depth_erase (v : YAML) : depth (erase v) = depth v.
Proof.
  induction v as [t x | items IH | items IH] using YAML_induction; simpl.
  - reflexivity.
  - f_equal. f_equal. rewrite map_map. simpl.
    induction IH as [| kv l H _ IHl]; simpl; [reflexivity | now rewrite H, IHl].
  - f_equal. f_equal. rewrite map_map.
    induction IH as [| c l H _ IHl]; simpl; [reflexivity | now rewrite H, IHl].
Qed.

Lemma erase_depth (v v' : YAML) : erase v' = erase v -> depth v' = depth v.
Proof.
  intros H. rewrite <- (depth_erase v'), <- (depth_erase v). now rewrite H.
Qed.

Lemma list_max_In (n : nat) (l : list nat) : In n l -> n <= list_max l.
Proof.
  induction l as [| m l IH]; simpl; [contradiction |].
  intros [-> | H]; [lia | specialize (IH H); lia].
Qed.

Lemma getitem_depth (v : YAML) (ix : index) (c : YAML) :
  getitem v ix = Ok c -> depth c < depth v.
Proof.
  destruct v as [t x | items | items], ix as [k | i]; simpl; try discriminate.
  - destruct (od_get k items) eqn:E; [| discriminate].
    intros H. inversion H. subst. apply od_get_In in E.
    apply Nat.lt_succ_r. apply list_max_In.
    apply in_map_iff. exists (k, c). auto.
  - destruct (nth_error items i) eqn:E; [| discriminate].
    intros H. inversion H. subst. apply nth_error_In in E.
    apply Nat.lt_succ_r. apply list_max_In. now apply in_map.
Qed.

(** ** Loops *)

Lemma for_each_invariant {A S : Type} (I : S -> Prop) (l : list A)
    (body : S -> A -> result S) (s r : S) :
  I s ->
  (forall s a s', In a l -> I s -> body s a = Ok s' -> I s') ->
  for_each l body s = Ok r -> I r.
Proof.
  revert s. induction l as [| a l IH]; simpl; intros s Hs Hstep H.
  - inversion H. now subst.
  - destruct (body s a) as [s' |] eqn:E; simpl in H; [| discriminate].
    apply (IH s'); auto.
    + apply (Hstep s a s'); auto.
    + intros s0 a0 s0' Hin. apply Hstep. now right.
Qed.

Lemma for_each_never {A S : Type} (I : S -> Prop) (e : exception) (l : list A)
    (body : S -> A -> result S) (s : S) :
  I s ->
  (forall s a, In a l -> I s ->
     body s a <> Raise e /\ forall s', body s a = Ok s' -> I s') ->
  for_each l body s <> Raise e.
Proof.
  revert s. induction l as [| a l IH]; simpl; intros s Hs Hstep.
  - discriminate.
  - destruct (Hstep s a (or_introl eq_refl) Hs) as [Hne Hok].
    destruct (body s a) as [s' |] eqn:E; simpl.
    + apply IH; [now apply Hok |]. intros s0 a0 Hin. apply Hstep. now right.
    + congruence.
Qed.

Lemma for_each_fixed {A S : Type} (l : list A) (body : S -> A -> result S) (r : S) :
  Forall (fun a => body r a = Ok r) l -> for_each l body r = Ok r.
Proof.
  induction 1 as [| a l Ha _ IH]; simpl; [reflexivity |].
  rewrite Ha. simpl. exact IH.
Qed.

(** A step that leaves the state alone keeps doing so after the other
    steps of the loop. *)
Lemma for_each_keeps {A S : Type} (l : list A) (body : S -> A -> result S)
    (a : A) (s r : S) :
  (forall s b s', body s a = Ok s -> body s b = Ok s' -> body s' a = Ok s') ->
  body s a = Ok s -> for_each l body s = Ok r -> body r a = Ok r.
Proof.
  intros Hstable. revert s. induction l as [| b l IH]; simpl; intros s Ha H.
  - inversion H. now subst.
  - destruct (body s b) as [s' |] eqn:E; simpl in H; [| discriminate].
    apply (IH s'); auto. now apply (Hstable s b s').
Qed.

Lemma for_each_settles {A S : Type} (l : list A) (body : S -> A -> result S) (s r : S) :
  (forall s a s', body s a = Ok s' -> body s' a = Ok s') ->
  (forall s a b s', body s a = Ok s -> body s b = Ok s' -> body s' a = Ok s') ->
  for_each l body s = Ok r -> Forall (fun a => body r a = Ok r) l.
Proof.
  intros Hidem Hstable. revert s. induction l as [| a l IH]; simpl; intros s H.
  - constructor.
  - destruct (body s a) as [s' |] eqn:E; simpl in H; [| discriminate].
    constructor.
    + apply (for_each_keeps l body a s' r); auto.
      * intros s0 b s0'. apply Hstable.
      * now apply (Hidem s a).
    + now apply (IH s').
Qed.

(** ** The normalizer *)

Lemma revalidate_parent (v : YAML) (ix : index) (c : YAML) (schema : Validator) :
  getitem v ix = Ok c -> revalidate v schema = Raise ValidationError.
Proof.
  intros H. apply getitem_parent in H. destruct v; [discriminate | reflexivity | reflexivity].
Qed.

Lemma validate_yaml_unfold (fuel : nat) (v : YAML) (ix : index) :
  validate_yaml (S fuel) v ix =
  (c <- getitem v ix ;; c' <- normalize fuel c ;; Ok (store v ix c')).
Proof.
  simpl. destruct (getitem v ix) as [c | e] eqn:E; simpl; [| reflexivity].
  destruct c as [t x | items | items]; simpl.
  - reflexivity.
  - destruct (List.length items =? 0); [| reflexivity].
    now rewrite (revalidate_parent v ix _ _ E).
  - destruct (List.length items =? 0); [| reflexivity].
    now rewrite (revalidate_parent v ix _ _ E).
Qed.

Lemma validate_text_scalar (c c' : YAML) :
  validate_text c = Ok c' ->
  exists t x x', c = Scalar t x /\ c' = Scalar t x'.
Proof.
  destruct c as [t x | items | items]; simpl; try discriminate.
  unfold validate_text. cbn [text_of bind].
  intros H. exists t, x.
  repeat match type of H with
         | (if ?b then _ else _) = _ => destruct b
         end;
    try (unfold revalidate in H;
         match type of H with
         | bind ?r _ = _ => destruct r as [y |]; simpl in H; [| discriminate]
         end;
         inversion H; now exists y).
  inversion H. now exists x.
Qed.

Lemma validate_text_erase (c c' : YAML) :
  validate_text c = Ok c' -> erase c' = erase c.
Proof.
  intros H. destruct (validate_text_scalar c c' H) as [t [x [x' [-> ->]]]]. reflexivity.
Qed.

Lemma validate_text_idem (c c' : YAML) :
  validate_text c = Ok c' -> validate_text c' = Ok c'.
Proof.
  intros H. destruct (validate_text_scalar c c' H) as [t [x [x' [-> ->]]]].
  revert H. unfold validate_text. cbn [text_of bind]. unfold revalidate.
  repeat match goal with
         | |- (if ?b then _ else _) = _ -> _ => destruct b
         end; intros H; try exact H.
  inversion H. reflexivity.
Qed.

Lemma validate_text_fuel (c : YAML) : validate_text c <> Raise OutOfFuel.
Proof.
  destruct c as [t x | items | items]; try discriminate.
  unfold validate_text. cbn [text_of bind]. unfold revalidate, validate_scalar.
  repeat match goal with
         | |- context [if ?b then _ else _] => destruct b; simpl
         | |- context [match float_repr ?t with _ => _ end] => destruct (float_repr t); simpl
         end; discriminate.
Qed.

Lemma erase_len (v v' : YAML) : erase v' = erase v -> len v' = len v.
Proof.
  destruct v, v'; simpl; try discriminate; intros H; inversion H as [H'].
  - reflexivity.
  - apply (f_equal (@List.length _)) in H'. now rewrite !length_map in H'.
  - apply (f_equal (@List.length _)) in H'. now rewrite !length_map in H'.
Qed.

Lemma erase_keys (items items' : odict YAML) :
  erase (Mapping items') = erase (Mapping items) -> map fst items' = map fst items.
Proof.
  simpl. intros H. inversion H as [H'].
  apply (f_equal (map fst)) in H'. rewrite !map_map in H'. exact H'.
Qed.

Lemma erase_shape (v v' : YAML) :
  erase v' = erase v ->
  match v with
  | Scalar t _ => exists x, v' = Scalar t x
  | Mapping _ => exists items', v' = Mapping items'
  | Sequence _ => exists items', v' = Sequence items'
  end.
Proof.
  destruct v, v'; simpl; try discriminate; intros H; inversion H; eauto.
Qed.

(** The normalizer only changes the values of scalars. *)
Lemma validate_yaml_erase (fuel : nat) :
  forall v ix v', validate_yaml fuel v ix = Ok v' -> erase v' = erase v.
Proof.
  induction fuel as [| fuel IH]; intros v ix v' H; [discriminate |].
  rewrite validate_yaml_unfold in H.
  destruct (getitem v ix) as [c | e] eqn:Eg; simpl in H; [| discriminate].
  destruct (normalize fuel c) as [c' | e] eqn:En; simpl in H; [| discriminate].
  inversion H. subst v'. apply (erase_store v ix c c' Eg).
  destruct c as [t x | items | items]; simpl in En.
  - exact (validate_text_erase _ _ En).
  - destruct (List.length items =? 0); [discriminate |].
    apply (for_each_invariant (fun s => erase s = erase (Mapping items)) _ _ _ _ eq_refl) in En;
      [exact En |].
    intros s a s' _ Hs Hb. rewrite <- Hs. now apply (IH s (Key a)).
  - destruct (List.length items =? 0); [discriminate |].
    apply (for_each_invariant (fun s => erase s = erase (Sequence items)) _ _ _ _ eq_refl) in En;
      [exact En |].
    intros s a s' _ Hs Hb. rewrite <- Hs. now apply (IH s (Ix a)).
Qed.

Lemma normalize_erase (fuel : nat) (c c' : YAML) :
  normalize fuel c = Ok c' -> erase c' = erase c.
Proof.
  destruct c as [t x | items | items]; simpl; intros En.
  - exact (validate_text_erase _ _ En).
  - destruct (List.length items =? 0); [discriminate |].
    apply (for_each_invariant (fun s => erase s = erase (Mapping items)) _ _ _ _ eq_refl) in En;
      [exact En |].
    intros s a s' _ Hs Hb. rewrite <- Hs. now apply (validate_yaml_erase fuel s (Key a)).
  - destruct (List.length items =? 0); [discriminate |].
    apply (for_each_invariant (fun s => erase s = erase (Sequence items)) _ _ _ _ eq_refl) in En;
      [exact En |].
    intros s a s' _ Hs Hb. rewrite <- Hs. now apply (validate_yaml_erase fuel s (Ix a)).
Qed.

(** More fuel than the depth of the node is enough. *)
Lemma validate_yaml_fuel (fuel : nat) :
  forall v ix, depth v < fuel -> validate_yaml fuel v ix <> Raise OutOfFuel.
Proof.
  induction fuel as [| fuel IH]; intros v ix Hd; [lia |].
  rewrite validate_yaml_unfold.
  destruct (getitem v ix) as [c | e] eqn:Eg; simpl.
  2:{ destruct v as [t x | items | items], ix as [k | i]; simpl in Eg; try congruence.
      - destruct (od_get k items); congruence.
      - destruct (nth_error items i); congruence. }
  assert (Hc : depth c < fuel) by (apply getitem_depth in Eg; lia).
  assert (Hn : normalize fuel c <> Raise OutOfFuel).
  { destruct c as [t x | items | items]; simpl.
    - apply validate_text_fuel.
    - destruct (List.length items =? 0); [discriminate |].
      apply (for_each_never (fun s => erase s = erase (Mapping items))); [reflexivity |].
      intros s a _ Hs. split.
      + apply IH. rewrite (erase_depth _ _ Hs). exact Hc.
      + intros s' Hb. rewrite <- Hs. now apply (validate_yaml_erase fuel s (Key a)).
    - destruct (List.length items =? 0); [discriminate |].
      apply (for_each_never (fun s => erase s = erase (Sequence items))); [reflexivity |].
      intros s a _ Hs. split.
      + apply IH. rewrite (erase_depth _ _ Hs). exact Hc.
      + intros s' Hb. rewrite <- Hs. now apply (validate_yaml_erase fuel s (Ix a)). }
  destruct (normalize fuel c) as [c' | e]; simpl; congruence.
Qed.

(** A child that is already normal stays so while its siblings are
    normalized. *)
Lemma validate_yaml_stable (fuel : nat) (s s' : YAML) (a b : index) :
  validate_yaml fuel s a = Ok s -> validate_yaml fuel s b = Ok s' ->
  validate_yaml fuel s' a = Ok s'.
Proof.
  destruct fuel as [| fuel]; [discriminate |].
  rewrite !validate_yaml_unfold.
  destruct (getitem s a) as [ca |] eqn:Ea; simpl; [| discriminate].
  destruct (normalize fuel ca) as [ca' |] eqn:Na; simpl; [| discriminate].
  intros Hs.
  assert (Hca : ca' = ca).
  { inversion Hs as [Hs']. pose proof (getitem_store_same s a ca ca' Ea) as G.
    rewrite Hs' in G. congruence. }
  subst ca'.
  destruct (getitem s b) as [cb |] eqn:Eb; simpl; [| discriminate].
  destruct (normalize fuel cb) as [cb' |] eqn:Nb; simpl; [| discriminate].
  intros Hs'. inversion Hs'. subst s'.
  assert (Dec : {a = b} + {a <> b}).
  { repeat decide equality. }
  destruct Dec as [-> | Hne].
  - assert (cb = ca) by congruence. subst cb.
    assert (cb' = ca) by congruence. subst cb'.
    rewrite (store_id s b ca Ea). rewrite Ea. simpl. rewrite Na. simpl.
    now rewrite (store_id s b ca Ea).
  - rewrite getitem_store_other by congruence. rewrite Ea. simpl. rewrite Na. simpl.
    f_equal. apply store_id. rewrite getitem_store_other by congruence. exact Ea.
Qed.

Lemma normalize_idem_step (fuel : nat) (c c' : YAML) :
  (forall v ix v', validate_yaml fuel v ix = Ok v' -> validate_yaml fuel v' ix = Ok v') ->
  normalize fuel c = Ok c' -> normalize fuel c' = Ok c'.
Proof.
  intros IH En.
  pose proof (normalize_erase fuel c c' En) as He.
  destruct c as [t x | items | items]; simpl in En.
  - pose proof (validate_text_scalar _ _ En) as [t0 [x0 [x' [_ ->]]]].
    simpl. now apply validate_text_idem in En.
  - destruct (erase_shape _ _ He) as [items' ->].
    pose proof (erase_len _ _ He) as Hl. simpl in Hl. simpl.
    rewrite Hl. destruct (List.length items =? 0); [discriminate |].
    rewrite (erase_keys _ _ He).
    apply for_each_fixed.
    apply (for_each_settles (map fst items)
             (fun c key => validate_yaml fuel c (Key key)) (Mapping items));
      [| | exact En].
    + intros s a s'. apply IH.
    + intros s a b s'. apply validate_yaml_stable.
  - destruct (erase_shape _ _ He) as [items' ->].
    pose proof (erase_len _ _ He) as Hl. simpl in Hl. simpl.
    rewrite Hl. destruct (List.length items =? 0); [discriminate |].
    apply for_each_fixed.
    apply (for_each_settles (seq 0 (List.length items))
             (fun c i => validate_yaml fuel c (Ix i)) (Sequence items));
      [| | exact En].
    + intros s a s'. apply IH.
    + intros s a b s'. apply validate_yaml_stable.
Qed.

(** Normalizing twice is normalizing once. *)
Lemma validate_yaml_idem (fuel : nat) :
  forall v ix v', validate_yaml fuel v ix = Ok v' -> validate_yaml fuel v' ix = Ok v'.
Proof.
  induction fuel as [| fuel IH]; intros v ix v' H; [discriminate |].
  rewrite validate_yaml_unfold in *.
  destruct (getitem v ix) as [c | e] eqn:Eg; simpl in H; [| discriminate].
  destruct (normalize fuel c) as [c' | e] eqn:En; simpl in H; [| discriminate].
  inversion H. subst v'. clear H.
  rewrite (getitem_store_same v ix c c' Eg). simpl.
  rewrite (normalize_idem_step fuel c c' IH En). simpl. f_equal. apply store_id.
  now apply (getitem_store_same v ix c c').
Qed.

Lemma normalize_idem (fuel : nat) (c c' : YAML) :
  normalize fuel c = Ok c' -> normalize fuel c' = Ok c'.
Proof. apply normalize_idem_step. apply validate_yaml_idem. Qed.

(** ** Fuel beyond what a run needs *)





(** ** Building one card *)

Lemma pd_set_text_keys (k : string) (v : pyval) (d : odict pyval) :
  pd_set (PyStr k) v (text_keys d) = text_keys (od_set k v d).
Proof.
  induction d as [| [k0 v0] d IH]; simpl; [reflexivity |].
  destruct (String.eqb k0 k); simpl; [reflexivity | now rewrite IH].
Qed.

(** Updating with a dictionary goes by its text keys. *)
Lemma dict_update_text_keys (d entries : odict pyval) :
  dict_update (text_keys d) (PyDict entries) = Ok (text_keys (od_update d entries)).
Proof.
  simpl. f_equal. unfold od_update. revert d.
  induction entries as [| kv entries IH]; intros d; simpl; [reflexivity |].
  now rewrite pd_set_text_keys, IH.
Qed.

Lemma add_properties_Ok (v : YAML) (p : string) (v' : YAML) (attrs : pydict) :
  add_properties v p = Ok (v', attrs) ->
  (v' = v /\ attrs = [] /\
   match getitem v (Key "properties") with Ok c => len c = 0 | Raise _ => True end) \/
  exists c c' updated,
    getitem v (Key "properties") = Ok c /\ len c <> 0 /\
    normalize (depth v) c = Ok c' /\ v' = store v (Key "properties") c' /\
    dict_update [] (data c') = Ok updated /\
    attrs = pd_set (PyStr "parent") (PyStr "Container()") updated.
Proof.
  unfold add_properties.
  destruct v as [t x | items | items]; simpl get; cbn [bind]; try discriminate.
  simpl getitem.
  destruct (od_get "properties" items) as [c |] eqn:Ec.
  2:{ simpl. intros H. inversion H. now left. }
  destruct (len c =? 0) eqn:El.
  { intros H. inversion H. apply Nat.eqb_eq in El. now left. }
  rewrite validate_yaml_unfold.
  assert (Eg : getitem (Mapping items) (Key "properties") = Ok c) by (simpl; now rewrite Ec).
  rewrite Eg. cbn [bind].
  destruct (normalize (depth (Mapping items)) c) as [c' |] eqn:En; cbn [bind]; [| discriminate].
  rewrite (getitem_store_same _ _ c c' Eg). cbn [bind].
  destruct (dict_update [] (data c')) as [updated |] eqn:Ed; cbn [bind]; [| discriminate].
  intros H. inversion H. right. exists c, c', updated.
  apply Nat.eqb_neq in El. repeat split; auto.
Qed.

Lemma add_properties_run (v : YAML) (p : string) (c c' : YAML) (updated : pydict) :
  getitem v (Key "properties") = Ok c -> len c <> 0 ->
  normalize (depth v) c = Ok c' -> dict_update [] (data c') = Ok updated ->
  add_properties v p =
  Ok (store v (Key "properties") c',
      pd_set (PyStr "parent") (PyStr "Container()") updated).
Proof.
  intros Eg El En Ed. unfold add_properties.
  destruct v as [t x | items | items]; try discriminate.
  simpl get. cbn [bind]. simpl in Eg.
  destruct (od_get "properties" items) as [c0 |] eqn:Ec; [| discriminate].
  inversion Eg. subst c0.
  apply Nat.eqb_neq in El. rewrite El.
  rewrite validate_yaml_unfold.
  assert (Eg' : getitem (Mapping items) (Key "properties") = Ok c) by (simpl; now rewrite Ec).
  rewrite Eg'. cbn [bind]. rewrite En. cbn [bind].
  rewrite (getitem_store_same _ _ c c' Eg'). cbn [bind]. rewrite Ed. reflexivity.
Qed.

(** The dictionary of a node whose properties are a mapping. *)
Lemma add_properties_mapping (v : YAML) (p : string) (v' : YAML) (attrs : pydict)
    (props : odict YAML) :
  add_properties v p = Ok (v', attrs) ->
  getitem v (Key "properties") = Ok (Mapping props) -> props <> [] ->
  exists c',
    normalize (depth v) (Mapping props) = Ok c' /\ v' = store v (Key "properties") c' /\
    exists d, data c' = PyDict d /\
    attrs = text_keys (od_update (od_update [] d) [("parent", PyStr "Container()")]).
Proof.
  intros H Hg Hne. apply add_properties_Ok in H.
  destruct H as [[_ [_ H0]] | [c [c' [updated [Eg [_ [En [-> [Ed ->]]]]]]]]].
  { rewrite Hg in H0. simpl in H0. destruct props; [congruence | discriminate]. }
  rewrite Hg in Eg. inversion Eg. subst c. clear Eg.
  exists c'. split; [exact En |]. split; [reflexivity |].
  pose proof (normalize_erase _ _ _ En) as He.
  destruct (erase_shape _ _ He) as [props' ->].
  exists (map (fun kv => (fst kv, data (snd kv))) props'). split; [reflexivity |].
  cbn [data] in Ed.
  change (@nil (pyval * pyval)) with (text_keys []) in Ed.
  rewrite dict_update_text_keys in Ed. inversion Ed.
  unfold od_update at 1. cbn [fold_left fst snd]. now rewrite pd_set_text_keys.
Qed.

Lemma add_properties_erase (v : YAML) (p : string) (v' : YAML) (attrs : pydict) :
  add_properties v p = Ok (v', attrs) -> erase v' = erase v.
Proof.
  intros H. apply add_properties_Ok in H.
  destruct H as [[-> _] | [c [c' [updated [Eg [_ [En [-> _]]]]]]]]; [reflexivity |].
  apply (erase_store _ _ c c' Eg). now apply normalize_erase in En.
Qed.

Lemma add_properties_idem (v : YAML) (p : string) (v' : YAML) (attrs : pydict) :
  add_properties v p = Ok (v', attrs) -> add_properties v' p = Ok (v', attrs).
Proof.
  intros H. pose proof (add_properties_erase _ _ _ _ H) as He.
  pose proof H as H0. apply add_properties_Ok in H0.
  destruct H0 as [[-> _] | [c [c' [updated [Eg [El [En [-> [Ed ->]]]]]]]]]; [exact H |].
  pose proof (normalize_erase _ _ _ En) as Hc.
  rewrite (add_properties_run _ p c' c' updated).
  - f_equal. f_equal. apply store_id. now apply (getitem_store_same _ _ c c').
  - now apply (getitem_store_same _ _ c c').
  - rewrite (erase_len _ _ Hc). exact El.
  - rewrite (erase_depth _ _ He). now apply normalize_idem in En.
  - exact Ed.
Qed.

Lemma getitem_fuel (v : YAML) (ix : index) : getitem v ix <> Raise OutOfFuel.
Proof.
  destruct v as [t x | items | items], ix as [k | i]; simpl; try discriminate.
  - destruct (od_get k items); discriminate.
  - destruct (nth_error items i); discriminate.
Qed.

Lemma text_of_fuel (v : YAML) : text_of v <> Raise OutOfFuel.
Proof. destruct v; discriminate. Qed.

Lemma update_pairs_fuel (d : pydict) (l : list pyval) :
  update_pairs d l <> Raise OutOfFuel.
Proof.
  unfold update_pairs. apply (for_each_never (fun _ => True)); [exact I |].
  intros s a _ _. split; [| auto].
  destruct (as_pair a) as [kv |] eqn:E; cbn [bind].
  - destruct (hashable (fst kv)); discriminate.
  - destruct a as [| | | s0 | l0 | d0]; simpl in E; try congruence.
    + destruct (chars s0) as [| ? [| ? [| ? ?]]]; congruence.
    + destruct l0 as [| ? [| ? [| ? ?]]]; congruence.
    + destruct d0 as [| [? ?] [| [? ?] [| ? ?]]]; congruence.
Qed.

Lemma dict_update_fuel (d : pydict) (other : pyval) :
  dict_update d other <> Raise OutOfFuel.
Proof.
  destruct other; simpl; try discriminate; apply update_pairs_fuel.
Qed.

Lemma add_properties_fuel (v : YAML) (p : string) :
  add_properties v p <> Raise OutOfFuel.
Proof.
  unfold add_properties.
  destruct v as [t x | items | items]; simpl get; cbn [bind]; try discriminate.
  destruct (match od_get "properties" items with Some p0 => len p0 | None => 0 end =? 0);
    [discriminate |].
  pose proof (validate_yaml_fuel (S (depth (Mapping items))) (Mapping items)
                (Key "properties") (Nat.lt_succ_diag_r _)) as Hf.
  destruct (validate_yaml (S (depth (Mapping items))) (Mapping items) (Key "properties"))
    as [v1 | e]; cbn [bind]; [| congruence].
  pose proof (getitem_fuel v1 (Key "properties")) as Hg.
  destruct (getitem v1 (Key "properties")) as [c |]; cbn [bind]; [| congruence].
  pose proof (dict_update_fuel [] (data c)) as Hu.
  destruct (dict_update [] (data c)); cbn [bind]; [discriminate | congruence].
Qed.

(** What a successful [lowest_level_component] has read and built. *)
Lemma lowest_level_component_Ok (v : YAML) (p : string) (v' : YAML) (card : CatalogCard) :
  lowest_level_component v p = Ok (v', card) ->
  exists n xn t xt attrs,
    getitem v (Key "name") = Ok (Scalar n xn) /\
    getitem v (Key "type") = Ok (Scalar t xt) /\
    add_properties v p = Ok (v', attrs) /\
    card = mkCatalogCard (to_camel_case n) t p (dict2string n attrs).
Proof.
  unfold lowest_level_component.
  destruct (getitem v (Key "name")) as [cn |] eqn:En; cbn [bind]; [| discriminate].
  destruct cn as [n xn | |]; simpl text_of; cbn [bind]; try discriminate.
  destruct (getitem v (Key "type")) as [ct |] eqn:Et; cbn [bind]; [| discriminate].
  destruct ct as [t xt | |]; simpl text_of; cbn [bind]; try discriminate.
  destruct (add_properties v p) as [[v1 attrs] |] eqn:Ea; cbn [bind]; [| discriminate].
  simpl. intros H. inversion H. subst. exists n, xn, t, xt, attrs. auto.
Qed.

Lemma lowest_level_component_run (v : YAML) (p n t : string) (xn xt : pyval)
    (v' : YAML) (attrs : pydict) :
  getitem v (Key "name") = Ok (Scalar n xn) ->
  getitem v (Key "type") = Ok (Scalar t xt) ->
  add_properties v p = Ok (v', attrs) ->
  lowest_level_component v p =
  Ok (v', mkCatalogCard (to_camel_case n) t p (dict2string n attrs)).
Proof.
  intros En Et Ea. unfold lowest_level_component.
  rewrite En. cbn [bind text_of]. rewrite Et. cbn [bind text_of]. rewrite Ea. reflexivity.
Qed.

Lemma add_properties_getitem (v : YAML) (p : string) (v' : YAML) (attrs : pydict)
    (k : string) :
  add_properties v p = Ok (v', attrs) -> k <> "properties" ->
  getitem v' (Key k) = getitem v (Key k).
Proof.
  intros H Hk. apply add_properties_Ok in H.
  destruct H as [[-> _] | [c [c' [d [_ [_ [_ [-> _]]]]]]]]; [reflexivity |].
  apply getitem_store_other. congruence.
Qed.

Lemma lowest_level_component_erase (v : YAML) (p : string) (v' : YAML) (card : CatalogCard) :
  lowest_level_component v p = Ok (v', card) -> erase v' = erase v.
Proof.
  intros H. apply lowest_level_component_Ok in H.
  destruct H as [n [xn [t [xt [attrs [_ [_ [Ha _]]]]]]]].
  now apply add_properties_erase in Ha.
Qed.

Lemma lowest_level_component_getitem (v : YAML) (p : string) (v' : YAML)
    (card : CatalogCard) (k : string) :
  lowest_level_component v p = Ok (v', card) -> k <> "properties" ->
  getitem v' (Key k) = getitem v (Key k).
Proof.
  intros H Hk. apply lowest_level_component_Ok in H.
  destruct H as [n [xn [t [xt [attrs [_ [_ [Ha _]]]]]]]].
  now apply (add_properties_getitem _ _ _ _ k) in Ha.
Qed.

Lemma lowest_level_component_idem (v : YAML) (p : string) (v' : YAML) (card : CatalogCard) :
  lowest_level_component v p = Ok (v', card) ->
  lowest_level_component v' p = Ok (v', card).
Proof.
  intros H. apply lowest_level_component_Ok in H.
  destruct H as [n [xn [t [xt [attrs [En [Et [Ha ->]]]]]]]].
  apply lowest_level_component_run with (xn := xn) (xt := xt).
  - rewrite (add_properties_getitem _ _ _ _ "name" Ha); [exact En | discriminate].
  - rewrite (add_properties_getitem _ _ _ _ "type" Ha); [exact Et | discriminate].
  - exact (add_properties_idem v p v' attrs Ha).
Qed.

Lemma lowest_level_component_fuel (v : YAML) (p : string) :
  lowest_level_component v p <> Raise OutOfFuel.
Proof.
  unfold lowest_level_component.
  pose proof (getitem_fuel v (Key "name")) as H1.
  destruct (getitem v (Key "name")) as [cn |]; cbn [bind]; [| congruence].
  pose proof (text_of_fuel cn) as H2.
  destruct (text_of cn); cbn [bind]; [| congruence].
  pose proof (getitem_fuel v (Key "type")) as H3.
  destruct (getitem v (Key "type")) as [ct |]; cbn [bind]; [| congruence].
  pose proof (text_of_fuel ct) as H4.
  destruct (text_of ct); cbn [bind]; [| congruence].
  pose proof (add_properties_fuel v p) as H5.
  destruct (add_properties v p); cbn [bind]; [discriminate | congruence].
Qed.

(** ** The catalog builder, phase by phase *)

Lemma descend_eq
    (derive : YAML -> odict CatalogCard -> string -> result (YAML * odict CatalogCard))
    (v : YAML) (cat : odict CatalogCard) (p n : string) :
  descend derive v cat p n =
  (children <- children_of v ;;
   r <- derive_children derive children cat n ;;
   Ok (with_components v (fst r), snd r, inner_parent v p n)).
Proof.
  unfold descend, children_of, with_components, inner_parent.
  destruct (has_key "components" v) eqn:Hk.
  - destruct (getitem v (Key "components")) as [comps |]; cbn [bind]; reflexivity.
  - cbn [bind]. unfold derive_children. simpl.
    destruct v as [t x | items | items]; simpl in *; try reflexivity.
    destruct (od_get "components" items); [discriminate | reflexivity].
Qed.

Lemma insert_card_eq (top : bool) (v : YAML) (cat : odict CatalogCard) (p n : string) :
  insert_card top v cat p n =
  (e <- entry top v p ;; Ok (fst e, od_set n (snd e) cat)).
Proof.
  unfold insert_card, entry. destruct top; [| reflexivity].
  destruct (get v "container") as [[c |] |]; cbn [bind]; try reflexivity.
  unfold raw. destruct (setitem c "name" _) as [c1 |]; cbn [bind]; [| reflexivity].
  destruct (lowest_level_component c1 p); reflexivity.
Qed.

Lemma derive_dict_eq (fuel : nat) (v : YAML) (cat : odict CatalogCard) (p : string) :
  derive_dict (S fuel) v cat p =
  (nt <- own_name v p ;;
   children <- children_of v ;;
   r <- derive_children (derive_dict fuel) children cat (fst nt) ;;
   e <- entry (snd nt) (with_components v (fst r)) (inner_parent v p (fst nt)) ;;
   Ok (fst e, od_set (fst nt) (snd e) (snd r))).
Proof.
  simpl. destruct (own_name v p) as [nt |]; cbn [bind]; [| reflexivity].
  rewrite descend_eq.
  destruct (children_of v) as [children |]; cbn [bind]; [| reflexivity].
  destruct (derive_children (derive_dict fuel) children cat (fst nt)) as [r |];
    cbn [bind]; [| reflexivity].
  simpl. apply insert_card_eq.
Qed.

Lemma derive_children_acc
    (derive : YAML -> odict CatalogCard -> string -> result (YAML * odict CatalogCard))
    (p : string) (cs : list YAML) :
  forall (done : list YAML) (cat : odict CatalogCard) (r : list YAML * odict CatalogCard),
    for_each cs
      (fun s component =>
         r <- derive component (snd s) p ;; Ok (fst s ++ [fst r], snd r))
      (done, cat) = Ok r ->
    exists cs', fst r = done ++ cs' /\ children_run derive p cs cat cs' (snd r).
Proof.
  induction cs as [| c cs IH]; simpl; intros done cat r H.
  - inversion H. simpl. exists []. split; [now rewrite app_nil_r | constructor].
  - destruct (derive c cat p) as [[c' cat1] |] eqn:Ec; cbn [bind] in H; [| discriminate].
    simpl in H. apply IH in H. destruct H as [cs' [Hr Hrun]].
    exists (c' :: cs'). split.
    + rewrite Hr. now rewrite <- app_assoc.
    + econstructor; eauto.
Qed.

Lemma derive_children_Ok
    (derive : YAML -> odict CatalogCard -> string -> result (YAML * odict CatalogCard))
    (p : string) (cs cs' : list YAML) (cat cat' : odict CatalogCard) :
  derive_children derive cs cat p = Ok (cs', cat') ->
  children_run derive p cs cat cs' cat'.
Proof.
  intros H. apply derive_children_acc in H. destruct H as [cs0 [Hr Hrun]].
  simpl in *. now subst.
Qed.

Lemma derive_children_run
    (derive : YAML -> odict CatalogCard -> string -> result (YAML * odict CatalogCard))
    (p : string) (cs cs' : list YAML) (cat cat' : odict CatalogCard) :
  children_run derive p cs cat cs' cat' ->
  derive_children derive cs cat p = Ok (cs', cat').
Proof.
  intros H. unfold derive_children.
  enough (G : forall done,
             for_each cs
               (fun s component =>
                  r <- derive component (snd s) p ;; Ok (fst s ++ [fst r], snd r))
               (done, cat) = Ok (done ++ cs', cat')) by apply (G []).
  induction H as [cat | c cs cat c' cat1 cs' cat2 Hc _ IH]; intros done; simpl.
  - now rewrite app_nil_r.
  - rewrite Hc. cbn [bind]. simpl. rewrite IH. now rewrite <- app_assoc.
Qed.

(** What a successful [derive_dict] went through. *)
Lemma derive_dict_Ok (fuel : nat) (v : YAML) (cat : odict CatalogCard) (p : string)
    (v' : YAML) (cat' : odict CatalogCard) :
  derive_dict (S fuel) v cat p = Ok (v', cat') ->
  exists n top children children' cat1 card,
    own_name v p = Ok (n, top) /\
    children_of v = Ok children /\
    children_run (derive_dict fuel) n children cat children' cat1 /\
    entry top (with_components v children') (inner_parent v p n) = Ok (v', card) /\
    cat' = od_set n card cat1.
Proof.
  rewrite derive_dict_eq.
  destruct (own_name v p) as [[n top] |] eqn:En; cbn [bind]; [| discriminate].
  destruct (children_of v) as [children |] eqn:Ec; cbn [bind]; [| discriminate].
  simpl fst. simpl snd.
  destruct (derive_children (derive_dict fuel) children cat n) as [[children' cat1] |] eqn:Ed;
    cbn [bind]; [| discriminate].
  simpl fst. simpl snd.
  destruct (entry top (with_components v children') (inner_parent v p n)) as [[v1 card] |] eqn:Ee;
    cbn [bind]; [| discriminate].
  simpl. intros H. inversion H. subst.
  exists n, top, children, children', cat1, card.
  repeat split; auto. now apply derive_children_Ok.
Qed.

Lemma derive_dict_run (fuel : nat) (v : YAML) (cat : odict CatalogCard) (p : string)
    (n : string) (top : bool) (children children' : list YAML)
    (cat1 : odict CatalogCard) (v' : YAML) (card : CatalogCard) :
  own_name v p = Ok (n, top) ->
  children_of v = Ok children ->
  children_run (derive_dict fuel) n children cat children' cat1 ->
  entry top (with_components v children') (inner_parent v p n) = Ok (v', card) ->
  derive_dict (S fuel) v cat p = Ok (v', od_set n card cat1).
Proof.
  intros En Ec Hr Ee. rewrite derive_dict_eq. rewrite En. cbn [bind]. rewrite Ec.
  cbn [bind]. simpl fst. simpl snd.
  rewrite (derive_children_run _ _ _ _ _ _ Hr). cbn [bind]. simpl fst. simpl snd.
  rewrite Ee. reflexivity.
Qed.

(** ** Insertion order *)

Lemma od_update_app {A : Type} (d l1 l2 : odict A) :
  od_update d (l1 ++ l2) = od_update (od_update d l1) l2.
Proof. unfold od_update. apply fold_left_app. Qed.

Lemma combine_append {A B : Type} (l1 l2 : list A) (c1 c2 : list B) :
  List.length l1 = List.length c1 ->
  combine (l1 ++ l2) (c1 ++ c2) = combine l1 c1 ++ combine l2 c2.
Proof.
  revert c1. induction l1 as [| a l1 IH]; intros [| b c1]; simpl; try discriminate.
  - reflexivity.
  - intros H. f_equal. apply IH. lia.
Qed.

Lemma od_set_fresh {A : Type} (k : string) (a : A) (d : odict A) :
  ~ In k (map fst d) -> od_set k a d = d ++ [(k, a)].
Proof.
  induction d as [| [k' a'] d IH]; simpl; intros H; [reflexivity |].
  destruct (String.eqb k' k) eqn:E.
  - apply String.eqb_eq in E. exfalso. auto.
  - rewrite IH; auto.
Qed.

Lemma od_update_fresh {A : Type} (l d : odict A) :
  NoDup (map fst l) -> (forall k, In k (map fst l) -> ~ In k (map fst d)) ->
  od_update d l = d ++ l.
Proof.
  revert d. induction l as [| [k a] l IH]; simpl; intros d Hnd Hfresh.
  - now rewrite app_nil_r.
  - inversion Hnd as [| k0 l0 Hk Hl]. subst.
    unfold od_update. simpl. fold (od_update (od_set k a d) l).
    rewrite od_set_fresh by (apply Hfresh; now left).
    rewrite IH; auto.
    + now rewrite <- app_assoc.
    + intros k' Hin. rewrite map_app, in_app_iff. simpl.
      intros [H | [H | []]].
      * apply (Hfresh k'); auto.
      * subst. contradiction.
Qed.

Lemma combine_keys {A B : Type} (l : list A) (c : list B) :
  List.length c = List.length l -> map fst (combine l c) = l.
Proof.
  revert c. induction l as [| a l IH]; intros [| b c]; simpl; try discriminate.
  - reflexivity.
  - intros H. f_equal. apply IH. lia.
Qed.

Lemma own_name_mapping (v : YAML) (p n : string) (top : bool) :
  own_name v p = Ok (n, top) ->
  exists items,
    v = Mapping items /\
    ((exists x, od_get "name" items = Some (Scalar n x) /\ top = false) \/
     (od_get "name" items = None /\ n = p /\ top = true)).
Proof.
  unfold own_name. destruct v as [t x | items | items]; simpl; try discriminate.
  intros H. exists items. split; [reflexivity |].
  destruct (od_get "name" items) as [c |]; simpl in H.
  - destruct c as [t x | |]; simpl in H; try discriminate.
    inversion H. subst. left. now exists x.
  - inversion H. subst. now right.
Qed.

Lemma derive_dict_mapping (fuel : nat) (v : YAML) (cat : odict CatalogCard) (p : string)
    (r : YAML * odict CatalogCard) :
  derive_dict fuel v cat p = Ok r -> is_mapping v = true.
Proof.
  destruct fuel as [| fuel]; [discriminate |].
  simpl. destruct (own_name v p) as [[n top] |] eqn:E; [| discriminate].
  intros _. apply own_name_mapping in E. destruct E as [items [-> _]]. reflexivity.
Qed.

Lemma children_run_mapping (fuel : nat) (p : string) (cs cs' : list YAML)
    (cat cat' : odict CatalogCard) :
  children_run (derive_dict fuel) p cs cat cs' cat' ->
  Forall (fun c => is_mapping c = true) cs.
Proof.
  induction 1 as [| c cs cat c' cat1 cs' cat2 Hc _ IH]; constructor; auto.
  now apply derive_dict_mapping in Hc.
Qed.

Lemma component_tree_components (items : odict YAML) (n : string) :
  (fix components (l : odict YAML) : list tree :=
     match l with
     | [] => []
     | (k, c) :: l' =>
         if String.eqb k "components" then
           match c with
           | Sequence cs => map (fun x => component_tree x n) cs
           | _ => []
           end
         else components l'
     end) items =
  match od_get "components" items with
  | Some (Sequence cs) => map (fun x => component_tree x n) cs
  | _ => []
  end.
Proof.
  induction items as [| [k c] items IH]; [reflexivity |].
  simpl. destruct (String.eqb k "components"); [reflexivity | exact IH].
Qed.

(** The tree of a node the builder gets through. *)
Lemma component_tree_eq (v : YAML) (p n : string) (top : bool) (children : list YAML) :
  own_name v p = Ok (n, top) -> children_of v = Ok children ->
  Forall (fun c => is_mapping c = true) children ->
  component_tree v p = Node n (map (fun c => component_tree c n) children).
Proof.
  intros Hn Hc Hm. apply own_name_mapping in Hn. destruct Hn as [items [-> Hn]].
  cbn [component_tree]. rewrite component_tree_components.
  assert (En : match od_get "name" items with Some (Scalar t _) => t | _ => p end = n).
  { destruct Hn as [[x [-> _]] | [-> [-> _]]]; reflexivity. }
  rewrite En. f_equal.
  unfold children_of in Hc. simpl in Hc.
  destruct (od_get "components" items) as [comps |]; simpl in Hc.
  - destruct comps as [t x | kvs | cs]; simpl in Hc; try discriminate.
    + inversion Hc. subst. destruct kvs as [| kv kvs]; [reflexivity |].
      inversion Hm. discriminate.
    + now inversion Hc.
  - now inversion Hc.
Qed.

Lemma derive_dict_postorder (fuel : nat) :
  forall v cat p v' cat',
    derive_dict fuel v cat p = Ok (v', cat') ->
    exists cards,
      List.length cards = List.length (postorder (component_tree v p)) /\
      cat' = od_update cat (combine (postorder (component_tree v p)) cards).
Proof.
  induction fuel as [| fuel IH]; intros v cat p v' cat' H; [discriminate |].
  apply derive_dict_Ok in H.
  destruct H as [n [top [children [children' [cat1 [card [Hn [Hc [Hr [He ->]]]]]]]]]].
  rewrite (component_tree_eq v p n top children Hn Hc (children_run_mapping _ _ _ _ _ _ Hr)).
  cbn [postorder]. rewrite flat_map_concat_map, map_map, <- flat_map_concat_map.
  assert (G : exists cards,
             List.length cards =
             List.length (flat_map (fun c => postorder (component_tree c n)) children) /\
             cat1 = od_update cat
                      (combine (flat_map (fun c => postorder (component_tree c n)) children)
                               cards)).
  { clear Hc He Hn. induction Hr as [cat | c cs cat c' cat1 cs' cat2 Hc _ IHr].
    - exists []. split; reflexivity.
    - apply IH in Hc. destruct Hc as [cards1 [L1 ->]].
      destruct IHr as [cards2 [L2 ->]].
      exists (cards1 ++ cards2). simpl. split.
      + rewrite !length_app. lia.
      + rewrite combine_append by auto. now rewrite od_update_app. }
  destruct G as [cards [L ->]].
  exists (cards ++ [card]). split.
  - rewrite !length_app. simpl. lia.
  - rewrite combine_append by auto. rewrite od_update_app. reflexivity.
Qed.

Lemma postorder_subtree (s t : tree) :
  subtree s t ->
  exists before after,
    postorder t =
    before ++ flat_map postorder (tree_children s) ++ [tree_key s] ++ after.
Proof.
  induction 1 as [| key children c Hin _ [before [after IH]]].
  - destruct s as [key children]. exists [], []. reflexivity.
  - apply in_split in Hin. destruct Hin as [l1 [l2 ->]].
    exists (flat_map postorder l1 ++ before), (after ++ flat_map postorder l2 ++ [key]).
    simpl. rewrite flat_map_app. simpl. rewrite IH.
    repeat rewrite <- app_assoc. reflexivity.
Qed.

(** C2 (as amended).  The catalog builder makes one insertion per node of
    the component tree, in the post-order of that tree, siblings left to
    right.  When the keys of the nodes are pairwise distinct, the catalog
    lists the keys in exactly that order: the entries of all the
    descendants of a container stand before the container's own entry,
    which follows them at once.  (An insertion under a key that the
    catalog holds already takes the place of the older entry.) *)
Theorem derive_dict_post_order (fuel : nat) (doc : YAML) (form_name : string)
    (doc' : YAML) (catalog : odict CatalogCard) :
  derive_dict fuel doc [] form_name = Ok (doc', catalog) ->
  let order := postorder (component_tree doc form_name) in
  (exists cards,
      List.length cards = List.length order /\
      catalog = od_update [] (combine order cards))
  /\ (NoDup order ->
      od_keys catalog = order
      /\ forall container,
           subtree container (component_tree doc form_name) ->
           exists before after,
             od_keys catalog =
             before ++ flat_map postorder (tree_children container)
                    ++ [tree_key container] ++ after).
Proof.
  intros H order. pose proof (derive_dict_postorder _ _ _ _ _ _ H) as [cards [L E]].
  fold order in L, E. split.
  - exists cards. auto.
  - intros Hnd.
    assert (K : od_keys catalog = order).
    { rewrite E. rewrite od_update_fresh.
      + simpl. unfold od_keys. now apply combine_keys.
      + now rewrite combine_keys.
      + intros k _ []. }
    split; [exact K |].
    intros container Hs. rewrite K. now apply postorder_subtree.
Qed.

(** ** Depth, fuel and a second run *)

Lemma setitem_Ok (c : YAML) (k : string) (s c1 : YAML) :
  setitem c k s = Ok c1 ->
  (exists items, c = Mapping items /\ c1 = Mapping (od_set k s items)) \/
  (exists t x, c = Scalar t x /\ c1 = Mapping [(k, s)]).
Proof.
  destruct c as [t x | items | items]; simpl; try discriminate; intros H; inversion H.
  - right. now exists t, x.
  - left. now exists items.
Qed.

(** The node a card has been made from, once it was given its name, was a
    mapping: a scalar that becomes the mapping of its name has no [type]. *)
Lemma setitem_card (c : YAML) (s c1 : YAML) (p : string) (c2 : YAML)
    (card : CatalogCard) :
  setitem c "name" s = Ok c1 ->
  lowest_level_component c1 p = Ok (c2, card) ->
  exists items, c = Mapping items /\ c1 = Mapping (od_set "name" s items).
Proof.
  intros Es El. apply setitem_Ok in Es.
  destruct Es as [[items [-> ->]] | [t [x [-> ->]]]]; [now exists items |].
  apply lowest_level_component_Ok in El.
  destruct El as [n [xn [t0 [xt [attrs [_ [Et _]]]]]]]. discriminate.
Qed.

Lemma has_key_getitem (k : string) (v : YAML) :
  has_key k v = match getitem v (Key k) with Ok _ => true | Raise _ => false end.
Proof.
  destruct v as [t x | items | items]; simpl; try reflexivity.
  destruct (od_get k items); reflexivity.
Qed.

Lemma own_name_getitem (v v' : YAML) (p : string) :
  getitem v' (Key "name") = getitem v (Key "name") -> own_name v' p = own_name v p.
Proof. unfold own_name. now intros ->. Qed.

Lemma children_of_getitem (v v' : YAML) :
  getitem v' (Key "components") = getitem v (Key "components") ->
  children_of v' = children_of v.
Proof. unfold children_of. rewrite !has_key_getitem. now intros ->. Qed.

Lemma inner_parent_getitem (v v' : YAML) (p n : string) :
  getitem v' (Key "components") = getitem v (Key "components") ->
  inner_parent v' p n = inner_parent v p n.
Proof. unfold inner_parent. rewrite !has_key_getitem. now intros ->. Qed.

Lemma with_components_getitem (v : YAML) (children : list YAML) (k : string) :
  k <> "components" ->
  getitem (with_components v children) (Key k) = getitem v (Key k).
Proof.
  intros Hk. unfold with_components.
  destruct (getitem v (Key "components")); [| reflexivity].
  apply getitem_store_other. congruence.
Qed.

(** The children read back from the node they were stored in. *)
Lemma children_of_with_components (v : YAML) (children children' : list YAML) :
  children_of v = Ok children ->
  Forall (fun c => is_mapping c = true) children ->
  List.length children' = List.length children ->
  children_of (with_components v children') = Ok children'.
Proof.
  unfold children_of, with_components. rewrite !has_key_getitem.
  destruct (getitem v (Key "components")) as [comps |] eqn:Eg; cbn [bind].
  - rewrite (getitem_store_same _ _ _ _ Eg). cbn [bind].
    destruct comps as [t x | kvs | cs]; simpl; try discriminate.
    + intros H Hm Hl. inversion H. subst.
      destruct kvs as [| kv kvs]; [| inversion Hm; discriminate].
      destruct children'; [reflexivity | discriminate].
    + reflexivity.
  - rewrite Eg. intros H _ Hl. inversion H. subst.
    destruct children'; [reflexivity | discriminate].
Qed.

Lemma with_components_same (v : YAML) (children : list YAML) :
  children_of v = Ok children -> with_components v children = v.
Proof.
  unfold children_of, with_components. rewrite has_key_getitem.
  destruct (getitem v (Key "components")) as [comps |] eqn:Eg; cbn [bind]; [| reflexivity].
  intros H. apply store_id. rewrite Eg. f_equal.
  destruct comps as [t x | kvs | cs]; simpl in *; try reflexivity.
  now inversion H.
Qed.

Lemma iter_depth (comps : YAML) (children : list YAML) (c : YAML) :
  iter comps = Ok children -> In c children -> depth c < depth comps.
Proof.
  destruct comps as [t x | kvs | cs]; simpl; try discriminate; intros H Hin;
    inversion H; subst.
  - apply in_map_iff in Hin. destruct Hin as [kv [<- _]]. simpl. lia.
  - apply Nat.lt_succ_r. apply list_max_In. now apply in_map.
Qed.

Lemma children_of_depth (v : YAML) (children : list YAML) (c : YAML) :
  children_of v = Ok children -> In c children -> S (depth c) < depth v.
Proof.
  unfold children_of. rewrite has_key_getitem.
  destruct (getitem v (Key "components")) as [comps |] eqn:Eg; cbn [bind].
  - intros H Hin. apply getitem_depth in Eg.
    pose proof (iter_depth _ _ _ H Hin). lia.
  - intros H. inversion H. contradiction.
Qed.

Lemma entry_Ok (top : bool) (w : YAML) (p : string) (v' : YAML) (card : CatalogCard) :
  entry top w p = Ok (v', card) ->
  (top = false /\ lowest_level_component w p = Ok (v', card)) \/
  (top = true /\
   exists c c1 c2,
     getitem w (Key "container") = Ok c /\
     setitem c "name" (raw TOP_LEVEL_NAME) = Ok c1 /\
     lowest_level_component c1 p = Ok (c2, card) /\
     v' = store w (Key "container") c2).
Proof.
  unfold entry. destruct top; [| now left]. right. split; [reflexivity |].
  destruct w as [t x | items | items]; simpl in *; try discriminate.
  destruct (od_get "container" items) as [c |]; [| discriminate].
  destruct (setitem c "name" (raw TOP_LEVEL_NAME)) as [c1 |] eqn:Es; cbn [bind] in H;
    [| discriminate].
  destruct (lowest_level_component c1 p) as [[c2 card2] |] eqn:El; cbn [bind] in H;
    [| discriminate].
  simpl in H. inversion H. subst. exists c, c1, c2. auto.
Qed.

Lemma entry_run_top (w : YAML) (p : string) (c c1 c2 : YAML) (card : CatalogCard) :
  getitem w (Key "container") = Ok c ->
  setitem c "name" (raw TOP_LEVEL_NAME) = Ok c1 ->
  lowest_level_component c1 p = Ok (c2, card) ->
  entry true w p = Ok (store w (Key "container") c2, card).
Proof.
  intros Eg Es El. unfold entry.
  destruct w as [t x | items | items]; simpl in *; try discriminate.
  destruct (od_get "container" items) as [c0 |]; [| discriminate].
  inversion Eg. subst c0. rewrite Es. cbn [bind]. rewrite El. reflexivity.
Qed.

Lemma entry_getitem (top : bool) (w : YAML) (p : string) (v' : YAML) (card : CatalogCard)
    (k : string) :
  entry top w p = Ok (v', card) -> k <> "properties" -> k <> "container" ->
  getitem v' (Key k) = getitem w (Key k).
Proof.
  intros H Hp Hc. apply entry_Ok in H.
  destruct H as [[_ H] | [_ [c [c1 [c2 [_ [_ [_ ->]]]]]]]].
  - now apply (lowest_level_component_getitem _ _ _ _ k) in H.
  - apply getitem_store_other. congruence.
Qed.

Lemma entry_idem (top : bool) (w : YAML) (p : string) (v' : YAML) (card : CatalogCard) :
  entry top w p = Ok (v', card) -> entry top v' p = Ok (v', card).
Proof.
  intros H. apply entry_Ok in H.
  destruct H as [[-> H] | [-> [c [c1 [c2 [Eg [Es [El ->]]]]]]]].
  - simpl. exact (lowest_level_component_idem w p v' card H).
  - pose proof (getitem_store_same _ _ _ c2 Eg) as Eg'.
    assert (Es' : setitem c2 "name" (raw TOP_LEVEL_NAME) = Ok c2).
    { pose proof (lowest_level_component_getitem _ _ _ _ "name" El) as Gn.
      destruct (setitem_card _ _ _ _ _ _ Es El) as [items [-> ->]].
      pose proof (lowest_level_component_erase _ _ _ _ El) as He.
      destruct (erase_shape _ _ He) as [items2 ->].
      simpl in Gn. rewrite od_get_set_same in Gn.
      specialize (Gn ltac:(discriminate)).
      simpl. destruct (od_get "name" items2) as [cn |] eqn:En; [| discriminate].
      inversion Gn. subst cn. cbn [raw]. f_equal. f_equal. apply od_set_id. exact En. }
    rewrite (entry_run_top _ p c2 c2 c2 card Eg' Es').
    + f_equal. f_equal. now apply store_id.
    + exact (lowest_level_component_idem c1 p c2 card El).
Qed.

Lemma setitem_fuel (c : YAML) (k : string) (s : YAML) : setitem c k s <> Raise OutOfFuel.
Proof.
  destruct c as [t x | items | items]; discriminate.
Qed.

Lemma entry_fuel (top : bool) (w : YAML) (p : string) : entry top w p <> Raise OutOfFuel.
Proof.
  unfold entry. destruct top; [| apply lowest_level_component_fuel].
  destruct w as [t x | items | items]; simpl; try discriminate.
  destruct (od_get "container" items) as [c |]; [| discriminate].
  pose proof (setitem_fuel c "name" (raw TOP_LEVEL_NAME)) as H1.
  destruct (setitem c "name" (raw TOP_LEVEL_NAME)) as [c1 |]; cbn [bind]; [| congruence].
  pose proof (lowest_level_component_fuel c1 p) as H2.
  destruct (lowest_level_component c1 p); cbn [bind]; [discriminate | congruence].
Qed.

Lemma own_name_fuel (v : YAML) (p : string) : own_name v p <> Raise OutOfFuel.
Proof.
  unfold own_name. pose proof (getitem_fuel v (Key "name")) as H.
  destruct (getitem v (Key "name")) as [c | e].
  - pose proof (text_of_fuel c). destruct (text_of c); simpl; [discriminate | congruence].
  - destruct e; try discriminate. congruence.
Qed.

Lemma children_of_fuel (v : YAML) : children_of v <> Raise OutOfFuel.
Proof.
  unfold children_of. destruct (has_key "components" v); [| discriminate].
  pose proof (getitem_fuel v (Key "components")) as H.
  destruct (getitem v (Key "components")) as [c |]; cbn [bind]; [| congruence].
  destruct c; discriminate.
Qed.

Lemma children_run_length
    (derive : YAML -> odict CatalogCard -> string -> result (YAML * odict CatalogCard))
    (p : string) (cs cs' : list YAML) (cat cat' : odict CatalogCard) :
  children_run derive p cs cat cs' cat' -> List.length cs' = List.length cs.
Proof. induction 1; simpl; auto. Qed.

(** More fuel than the depth of the document is enough. *)
Lemma derive_dict_fuel (fuel : nat) :
  forall v cat p, depth v < fuel -> derive_dict fuel v cat p <> Raise OutOfFuel.
Proof.
  induction fuel as [| fuel IH]; intros v cat p Hd; [lia |].
  rewrite derive_dict_eq.
  pose proof (own_name_fuel v p) as H1.
  destruct (own_name v p) as [[n top] |]; cbn [bind]; [| congruence].
  pose proof (children_of_fuel v) as H2.
  destruct (children_of v) as [children |] eqn:Ec; cbn [bind]; [| congruence].
  simpl fst. simpl snd.
  assert (H3 : derive_children (derive_dict fuel) children cat n <> Raise OutOfFuel).
  { unfold derive_children.
    apply (for_each_never (fun _ => True)); [exact I |].
    intros s c Hin _. split; [| auto].
    pose proof (children_of_depth v children c Ec Hin) as Hc.
    assert (Hf : derive_dict fuel c (snd s) n <> Raise OutOfFuel) by (apply IH; lia).
    destruct (derive_dict fuel c (snd s) n); cbn [bind]; [discriminate | congruence]. }
  destruct (derive_children (derive_dict fuel) children cat n) as [[children' cat1] |];
    cbn [bind]; [| congruence].
  simpl fst. simpl snd.
  pose proof (entry_fuel top (with_components v children') (inner_parent v p n)) as H4.
  destruct (entry top (with_components v children') (inner_parent v p n));
    cbn [bind]; [discriminate | congruence].
Qed.

(** A second run on the document the first run left behind goes through
    the same steps and leaves the document as it is, with any fuel that
    exceeds the depth of that document. *)
Lemma derive_dict_idem (fuel : nat) :
  forall v cat p v' cat',
    derive_dict fuel v cat p = Ok (v', cat') ->
    forall fuel', depth v' < fuel' -> derive_dict fuel' v' cat p = Ok (v', cat').
Proof.
  induction fuel as [| fuel IH]; intros v cat p v' cat' H fuel' Hd; [discriminate |].
  destruct fuel' as [| fuel']; [lia |].
  apply derive_dict_Ok in H.
  destruct H as [n [top [children [children' [cat1 [card [Hn [Hc [Hr [He ->]]]]]]]]]].
  pose proof (children_run_mapping _ _ _ _ _ _ Hr) as Hm.
  pose proof (children_run_length _ _ _ _ _ _ Hr) as Hl.
  pose proof (children_of_with_components v children children' Hc Hm Hl) as Hc'.
  assert (Gn : getitem v' (Key "name") = getitem v (Key "name")).
  { rewrite (entry_getitem _ _ _ _ _ "name" He) by discriminate.
    apply with_components_getitem. discriminate. }
  assert (Gc : getitem v' (Key "components") =
               getitem (with_components v children') (Key "components")).
  { apply (entry_getitem _ _ _ _ _ "components" He); discriminate. }
  assert (Hc2 : children_of v' = Ok children')
    by (rewrite (children_of_getitem _ _ Gc); exact Hc').
  assert (Hr' : children_run (derive_dict fuel') n children' cat children' cat1).
  { assert (Hin : forall c, In c children' -> depth c < fuel').
    { intros c Hin. pose proof (children_of_depth _ _ _ Hc2 Hin). lia. }
    clear - Hr IH Hin.
    induction Hr as [| c cs cat c' cat1 cs' cat2 Hd _ IHr]; econstructor.
    - apply (IH _ _ _ _ _ Hd). apply Hin. now left.
    - apply IHr. intros c0 H0. apply Hin. now right. }
  apply (derive_dict_run fuel' v' cat p n top children' children' cat1 v' card).
  - rewrite (own_name_getitem v v' p Gn). exact Hn.
  - exact Hc2.
  - exact Hr'.
  - rewrite (with_components_same v' children') by exact Hc2.
    rewrite (inner_parent_getitem _ _ p n Gc).
    assert (Hp : inner_parent (with_components v children') p n = inner_parent v p n).
    { unfold inner_parent. rewrite !has_key_getitem. unfold with_components.
      destruct (getitem v (Key "components")) as [comps |] eqn:Eg; [| now rewrite Eg].
      now rewrite (getitem_store_same _ _ _ _ Eg). }
    rewrite Hp. exact (entry_idem _ _ _ _ _ He).
Qed.

(** ** Counting the lines of a block *)

Lemma line_breaks_app (a b : string) :
  line_breaks (a +++ b) = line_breaks a + line_breaks b.
Proof. induction a as [| c a IH]; simpl; [reflexivity | rewrite IH; lia]. Qed.

Lemma line_breaks_join (l : list string) :
  line_breaks (join l) = list_sum (map line_breaks l).
Proof.
  induction l as [| a l IH]; simpl; [reflexivity |].
  now rewrite line_breaks_app, IH.
Qed.

Lemma line_breaks_template (key value : string) :
  line_breaks (kwargs_template key value) = line_breaks key + line_breaks value + 1.
Proof.
  unfold kwargs_template. rewrite !line_breaks_app.
  change (line_breaks "    ") with 0. change (line_breaks " = ") with 0.
  change (line_breaks ",") with 0. change (line_breaks NL) with 1. lia.
Qed.

Lemma line_breaks_property_line (kv : string * YAML) :
  line_breaks (property_line kv) = inner_breaks kv + 1.
Proof.
  unfold property_line, inner_breaks. rewrite line_breaks_template.
  destruct (is_str (data (snd kv))); [| reflexivity].
  rewrite !line_breaks_app. change (line_breaks "'") with 0. lia.
Qed.

Lemma list_sum_succ {A : Type} (f : A -> nat) (l : list A) :
  list_sum (map (fun a => f a + 1) l) = list_sum (map f l) + List.length l.
Proof. induction l as [| a l IH]; simpl; [reflexivity | rewrite IH; lia]. Qed.

Lemma list_sum_zeros {A : Type} (f : A -> nat) (l : list A) :
  Forall (fun a => f a = 0) l -> list_sum (map f l) = 0.
Proof.
  induction 1 as [| a l Ha _ IH]; simpl; [reflexivity | rewrite Ha, IH; reflexivity].
Qed.

(** The lines of a block of property lines followed by the [parent] line. *)
Lemma line_breaks_block (props : odict YAML) :
  line_breaks (join (map property_line props ++ [parent_line])) =
  List.length props + 1 + list_sum (map inner_breaks props).
Proof.
  rewrite line_breaks_join, map_app, list_sum_app, map_map.
  rewrite (map_ext _ (fun kv => inner_breaks kv + 1) line_breaks_property_line).
  rewrite list_sum_succ.
  change (list_sum (map line_breaks [parent_line])) with 1. lia.
Qed.

(** ** The property block *)

Lemma append_assoc (a b c : string) : (a +++ b) +++ c = a +++ b +++ c.
Proof. induction a as [| x a IH]; simpl; [reflexivity | now rewrite IH]. Qed.

Lemma append_nil_r (a : string) : a +++ EmptyString = a.
Proof. induction a as [| x a IH]; simpl; [reflexivity | now rewrite IH]. Qed.

Lemma dict2string_lines (n : string) (of_dict : pydict) :
  dict2string n of_dict = join (dict2lines of_dict).
Proof.
  unfold dict2string, dict2lines, join.
  enough (G : forall acc,
             fold_left
               (fun kwargs_string kv =>
                  let value := kwarg_value (fst kv) (snd kv) in
                  kwargs_string +++ kwargs_template (py_str (fst kv)) (py_str value))
               of_dict acc =
             acc +++ fold_right String.append EmptyString
                       (map (fun kv =>
                               kwargs_template (py_str (fst kv))
                                 (py_str (kwarg_value (fst kv) (snd kv))))
                            of_dict)) by apply (G EmptyString).
  induction of_dict as [| kv l IH]; intros acc; simpl.
  - now rewrite append_nil_r.
  - rewrite IH. now rewrite append_assoc.
Qed.

(** C1 (as amended).  For a component whose [properties] is absent or an
    empty mapping, the attrs map is empty and the property block is the
    empty text: no synthetic [parent] entry is added, and the node is left
    as it is. *)
Theorem add_properties_without_properties (value : YAML) (parent : string) :
  get value "properties" = Ok None \/ get value "properties" = Ok (Some (Mapping [])) ->
  add_properties value parent = Ok (value, [])
  /\ (forall dict_name, dict2string dict_name [] = EmptyString)
  /\ (forall value' card,
        lowest_level_component value parent = Ok (value', card) ->
        value' = value /\ as_string card = EmptyString).
Proof.
  intros H.
  assert (E : add_properties value parent = Ok (value, [])).
  { unfold add_properties. destruct H as [-> | ->]; reflexivity. }
  split; [exact E |]. split; [reflexivity |].
  intros value' card Hl. apply lowest_level_component_Ok in Hl.
  destruct Hl as [n [xn [t [xt [attrs [_ [_ [Ha ->]]]]]]]].
  rewrite E in Ha. inversion Ha. subst. split; reflexivity.
Qed.

Lemma od_update_nil_fresh {A : Type} (l : odict A) :
  NoDup (map fst l) -> od_update [] l = l.
Proof. intros H. rewrite od_update_fresh; auto. Qed.

Lemma data_keys (items : odict YAML) :
  map fst (map (fun kv => (fst kv, data (snd kv))) items) = map fst items.
Proof. rewrite map_map. reflexivity. Qed.

Lemma property_line_dict (kv : string * YAML) :
  fst kv <> "parent" ->
  kwargs_template (fst kv) (py_str (kwarg_value (PyStr (fst kv)) (data (snd kv)))) =
  property_line kv.
Proof.
  intros Hk. unfold property_line, kwarg_value.
  apply String.eqb_neq in Hk. destruct (data (snd kv)); simpl; try reflexivity.
  now rewrite Hk.
Qed.

(** C4 (as amended).  For a component whose [properties] mapping has N
    entries, none of them keyed [parent]: when N = 0 the block is empty;
    when N >= 1 the block is the text of one line per property, in the
    order of the mapping, then the line of the synthetic [parent] entry,
    and the value of a property stands between quotes if and only if its
    normalized value is a string.  The text has exactly N+1 lines when no
    key and no value as it is printed holds a line break; every line
    break they hold adds a line. *)
Theorem property_block_lines (value : YAML) (parent : string) (props : odict YAML)
    (value' : YAML) (card : CatalogCard) :
  getitem value (Key "properties") = Ok (Mapping props) ->
  NoDup (map fst props) ->
  ~ In "parent" (map fst props) ->
  lowest_level_component value parent = Ok (value', card) ->
  (props = [] -> value' = value /\ as_string card = EmptyString)
  /\ (props <> [] ->
      exists props',
        getitem value' (Key "properties") = Ok (Mapping props')
        /\ map fst props' = map fst props
        /\ as_string card = join (map property_line props' ++ [parent_line])
        /\ line_breaks (as_string card) =
           List.length props + 1 + list_sum (map inner_breaks props')
        /\ (Forall (fun kv => inner_breaks kv = 0) props' ->
            line_breaks (as_string card) = List.length props + 1)).
Proof.
  intros Hg Hnd Hp Hl. apply lowest_level_component_Ok in Hl.
  destruct Hl as [n [xn [t [xt [attrs [_ [_ [Ha ->]]]]]]]].
  split.
  { intros ->. apply add_properties_Ok in Ha.
    destruct Ha as [[-> [-> _]] | [c [c' [updated [Eg [El _]]]]]]; [split; reflexivity |].
    rewrite Hg in Eg. inversion Eg. subst c. simpl in El. congruence. }
  intros Hne.
  destruct (add_properties_mapping _ _ _ _ _ Ha Hg Hne) as [c' [En [-> [d [Ed ->]]]]].
  pose proof (normalize_erase _ _ _ En) as He.
  destruct (erase_shape _ _ He) as [props' ->].
  pose proof (erase_keys _ _ He) as Hk.
  exists props'. split; [now apply (getitem_store_same _ _ _ _ Hg) |].
  split; [exact Hk |].
  simpl in Ed. inversion Ed. subst d. clear Ed.
  assert (Hnd' : NoDup (map fst (map (fun kv => (fst kv, data (snd kv))) props')))
    by (rewrite data_keys, Hk; exact Hnd).
  rewrite (od_update_nil_fresh _ Hnd').
  unfold od_update. simpl fold_left.
  rewrite od_set_fresh by (rewrite data_keys, Hk; exact Hp).
  assert (Hs : dict2string n
                 (text_keys
                    (map (fun kv => (fst kv, data (snd kv))) props' ++
                     [("parent", PyStr "Container()")])) =
               join (map property_line props' ++ [parent_line])).
  { rewrite dict2string_lines. f_equal.
    unfold dict2lines, text_keys. rewrite !map_app, !map_map. simpl. f_equal.
    apply map_ext_in. intros kv Hin. simpl. apply property_line_dict.
    intros E. apply Hp. rewrite <- Hk, <- E. now apply in_map. }
  assert (Hn : List.length props' = List.length props).
  { apply (f_equal (@List.length _)) in Hk. now rewrite !length_map in Hk. }
  cbn [as_string]. rewrite Hs, line_breaks_block, Hn.
  split; [reflexivity |]. split; [reflexivity |].
  intros H0. rewrite (list_sum_zeros _ _ H0). lia.
Qed.

(** ** The generated text *)

(** C6 (as amended).  Every generated text ends with the same initializer:
    it accepts keyword arguments, calls the superclass initializer with no
    argument at all, and does nothing else. *)
Theorem yaml2definition_initializer (parsed : YAML) (form_name : string)
    (parsed' : YAML) (text : string) :
  yaml2definition parsed form_name = Ok (parsed', text) ->
  (exists body, text = body +++ INITIALIZER)
  /\ INITIALIZER =
       "    def init_components(self, **kwargs):" +++ NL +++
       "        super().__init__()        " +++ NL +++
       "        pass" +++ NL
  /\ passes_kwargs INITIALIZER = false.
Proof.
  unfold yaml2definition.
  destruct (derive_dict (S (depth parsed)) parsed [] form_name) as [[p1 cat] |];
    cbn [bind]; [| discriminate].
  simpl fst. simpl snd.
  destruct (od_get form_name cat) as [form |]; [| discriminate].
  intros H. inversion H. split; [| split; reflexivity].
  exists (HEADER +++ fst (emit_catalog cat form_name) +++
          "class " +++ form_name +++ "Template(" +++ of_type form +++ "):" +++ NL +++
          snd (emit_catalog cat form_name) +++
          NL +++
          "    # not sure why, but item is not in the official api docs so must add here" +++ NL +++
          "    item = dict()" +++ NL +++ NL).
  unfold FOOTER. repeat rewrite append_assoc. reflexivity.
Qed.

(** C9.  Generation is repeatable: the text is a function of the document
    and the form name, and a second run on the very document object the
    first run has worked on (and mutated) returns the same text and leaves
    the document as the first run left it. *)
Theorem yaml2definition_repeatable (parsed : YAML) (form_name : string)
    (parsed' : YAML) (text : string) :
  yaml2definition parsed form_name = Ok (parsed', text) ->
  yaml2definition parsed' form_name = Ok (parsed', text).
Proof.
  unfold yaml2definition.
  destruct (derive_dict (S (depth parsed)) parsed [] form_name) as [[p1 cat] |] eqn:E;
    cbn [bind]; [| discriminate].
  simpl fst. simpl snd.
  destruct (od_get form_name cat) as [form |] eqn:Ef; [| discriminate].
  intros H. inversion H. subst p1.
  rewrite (derive_dict_idem _ _ _ _ _ _ E _ (Nat.lt_succ_diag_r _)). cbn [bind]. simpl fst. simpl snd.
  rewrite Ef. reflexivity.
Qed.

(** ** Empty mappings and sequences under the normalizer *)

(** C8 (what the code does).  When the node at the key is an empty mapping
    or an empty sequence, [validate_yaml] revalidates the enclosing node,
    not the node at the key; the enclosing node is not a scalar, the
    validator refuses it, and the run ends there. *)
Theorem validate_yaml_empty_child (fuel : nat) (value : YAML) (sequence_key : index) :
  (getitem value sequence_key = Ok (Mapping []) ->
   validate_yaml (S fuel) value sequence_key = revalidate value EmptyDict
   /\ validate_yaml (S fuel) value sequence_key = Raise ValidationError)
  /\ (getitem value sequence_key = Ok (Sequence []) ->
      validate_yaml (S fuel) value sequence_key = revalidate value EmptyList
      /\ validate_yaml (S fuel) value sequence_key = Raise ValidationError).
Proof.
  split; intros H; simpl; rewrite H; simpl;
    rewrite (revalidate_parent _ _ _ _ H); split; reflexivity.
Qed.

(** ** The label example *)

(** C5 (as amended).  For the form whose container is a [ColumnPanel] and
    whose one component is the label [label_1] with the properties
    [text: Hi] and [visible: true], the generated text is the header, the
    block [Label1 = dict(...)] under the camel-case name, the line
    [class <FormName>Template(ColumnPanel):], the class attribute that
    binds [label_1] to [Label] applied to the unpacked [Label1], and the
    footer. *)
Theorem yaml2definition_label_form (form_name : string) :
  form_name <> "label_1" ->
  exists parsed',
    yaml2definition label_form form_name =
    Ok (parsed',
        HEADER +++ label_block +++
        "class " +++ form_name +++ "Template(ColumnPanel):" +++ NL +++
        "    label_1 = Label(**Label1)" +++ NL +++
        FOOTER).
Proof.
  intros Hne.
  assert (E1 : String.eqb "label_1" form_name = false)
    by (apply String.eqb_neq; congruence).
  unfold yaml2definition.
  assert (Ed : exists parsed' c2,
             of_type c2 = "ColumnPanel" /\
             derive_dict (S (depth label_form)) label_form [] form_name =
             Ok (parsed',
                 [("label_1",
                   mkCatalogCard "Label1" "Label" form_name
                     ("    text = 'Hi'," +++ NL +++
                      "    visible = True," +++ NL +++
                      "    parent = Container()," +++ NL));
                  (form_name, c2)])).
  { assert (Hc : exists l',
               derive_dict 4 label_1 [] form_name =
               Ok (l', [("label_1",
                         mkCatalogCard "Label1" "Label" form_name
                           ("    text = 'Hi'," +++ NL +++
                            "    visible = True," +++ NL +++
                            "    parent = Container()," +++ NL))]))
      by (eexists; reflexivity).
    destruct Hc as [l' Hc].
    assert (He : exists d c2,
               entry true (with_components label_form [l'])
                 (inner_parent label_form form_name form_name) = Ok (d, c2) /\
               of_type c2 = "ColumnPanel")
      by (eexists; eexists; split; reflexivity).
    destruct He as [d [c2 [He Ht]]].
    exists d, c2. split; [exact Ht |].
    change (depth label_form) with 4.
    rewrite (derive_dict_run 4 label_form [] form_name form_name true
               [label_1] [l'] _ d c2 eq_refl eq_refl
               (run_cons _ _ _ _ _ _ _ _ _ Hc (run_nil _ _ _)) He).
    cbn [od_set]. rewrite E1. reflexivity. }
  destruct Ed as [parsed' [c2 [Ht Ed]]]. rewrite Ed. cbn [bind fst snd].
  exists parsed'.
  unfold emit_catalog. cbn [fold_left fst snd od_get].
  rewrite E1, String.eqb_refl. cbn [name of_type as_string].
  rewrite Ht. reflexivity.
Qed.

(** ** What the generator leaves alone *)





















(** ** A missing type *)

Lemma get_getitem (w : YAML) (k : string) (c : YAML) :
  getitem w (Key k) = Ok c -> get w k = Ok (Some c).
Proof.
  destruct w as [t x | items | items]; simpl; try discriminate.
  destruct (od_get k items); [| discriminate]. intros H. now inversion H.
Qed.










(** ** The names of the property dictionaries *)

Lemma string_of_list_ascii_app (l1 l2 : list ascii) :
  string_of_list_ascii (l1 ++ l2) = string_of_list_ascii l1 +++ string_of_list_ascii l2.
Proof. induction l1 as [| c l1 IH]; simpl; [reflexivity | now rewrite IH]. Qed.

Lemma title_from_app (x y : string) :
  forall cased,
    title_from cased (x +++ y) = title_from cased x +++ title_from (cased_after cased x) y.
Proof.
  induction x as [| c x IH]; intros cased; simpl; [reflexivity |].
  destruct (is_lower c); simpl; [now rewrite IH |].
  destruct (is_upper c); simpl; now rewrite IH.
Qed.

Lemma cased_after_app (x y : string) :
  forall cased, cased_after cased (x +++ y) = cased_after (cased_after cased x) y.
Proof. induction x as [| c x IH]; intros cased; simpl; [reflexivity | apply IH]. Qed.

Lemma split_from_camel (s : string) :
  forall cur,
    join (map title (split_from "_" cur s)) =
    title (string_of_list_ascii (rev cur)) +++
    camel (cased_after false (string_of_list_ascii (rev cur))) s.
Proof.
  induction s as [| c s IH]; intros cur; simpl.
  - reflexivity.
  - destruct (Ascii.eqb c "_") eqn:Ec; simpl.
    + rewrite (IH []). reflexivity.
    + rewrite (IH (c :: cur)). simpl rev.
      rewrite string_of_list_ascii_app. unfold title.
      rewrite title_from_app, cased_after_app, append_assoc. f_equal.
      simpl. destruct (is_lower c); [reflexivity |].
      destruct (is_upper c); reflexivity.
Qed.

(** [to_camel_case] in one pass. *)
Lemma to_camel_case_camel (s : string) : to_camel_case s = camel false s.
Proof. unfold to_camel_case, split. now rewrite split_from_camel. Qed.

Lemma camel_app (x y : string) :
  forall cased,
    camel cased (x +++ "_" +++ y) = camel cased x +++ camel false y.
Proof.
  induction x as [| c x IH]; intros cased; simpl; [reflexivity |].
  destruct (Ascii.eqb c "_"); [apply IH |].
  destruct (is_lower c); simpl; [now rewrite IH |].
  destruct (is_upper c); simpl; now rewrite IH.
Qed.

Lemma camel_no_letter_first (y : string) (c1 c2 : bool) :
  no_letter_first y -> camel c1 y = camel c2 y.
Proof.
  destruct y as [| c y]; simpl; [reflexivity |].
  intros [-> ->]. reflexivity.
Qed.

Lemma camel_skip (x y : string) :
  no_letter_first y ->
  forall cased, camel cased (x +++ y) = camel cased x +++ camel false y.
Proof.
  intros Hy. induction x as [| c x IH]; intros cased; simpl.
  - now apply camel_no_letter_first.
  - destruct (Ascii.eqb c "_"); [apply IH |].
    destruct (is_lower c); simpl; [now rewrite IH |].
    destruct (is_upper c); simpl; now rewrite IH.
Qed.

Lemma to_lower_cases (c : ascii) :
  Ascii.eqb (to_lower c) "_" = Ascii.eqb c "_"
  /\ is_upper (to_lower c) = false
  /\ is_lower (to_lower c) = is_lower c || is_upper c
  /\ (is_upper c = true -> to_upper (to_lower c) = c)
  /\ (is_upper c = false -> to_lower c = c)
  /\ (is_lower c = true -> is_upper c = false).
Proof.
  destruct c as [[] [] [] [] [] [] [] []];
    (repeat apply conj; try reflexivity; intros H; try reflexivity; discriminate H).
Qed.

Lemma case_not_underscore (c : ascii) :
  (is_lower c = true -> to_upper c <> "_"%char /\ c <> "_"%char)
  /\ (is_upper c = true -> to_lower c <> "_"%char /\ c <> "_"%char).
Proof.
  destruct c as [[] [] [] [] [] [] [] []];
    (split; intros H; try discriminate H; split; discriminate).
Qed.

Lemma camel_lower (s : string) : forall cased, camel cased (lower s) = camel cased s.
Proof.
  induction s as [| c s IH]; intros cased; simpl; [reflexivity |].
  destruct (to_lower_cases c) as [E1 [E2 [E3 [E4 [E5 E6]]]]].
  rewrite E1, E2, E3. destruct (Ascii.eqb c "_"); [apply IH |].
  destruct (is_lower c) eqn:El; simpl.
  - rewrite (E5 (E6 eq_refl)), IH. reflexivity.
  - destruct (is_upper c) eqn:Eu; simpl.
    + rewrite (E4 eq_refl), IH. reflexivity.
    + rewrite (E5 eq_refl), IH. reflexivity.
Qed.

Lemma camel_no_underscore (s : string) :
  forall cased, ~ In "_"%char (chars (camel cased s)).
Proof.
  induction s as [| c s IH]; intros cased; simpl; [tauto |].
  destruct (case_not_underscore c) as [Hl Hu].
  destruct (Ascii.eqb c "_") eqn:Ec; [apply IH |].
  apply Ascii.eqb_neq in Ec.
  destruct (is_lower c) eqn:El; simpl.
  - destruct (Hl eq_refl) as [H1 H2]. intros [E | Hin]; [| now apply (IH true)].
    destruct cased; congruence.
  - destruct (is_upper c) eqn:Eu; simpl.
    + destruct (Hu eq_refl) as [H1 H2]. intros [E | Hin]; [| now apply (IH true)].
      destruct cased; congruence.
    + intros [E | Hin]; [congruence | now apply (IH false)].
Qed.

Lemma case_ascii (c : ascii) :
  (nat_of_ascii c <? 128) = true ->
  (nat_of_ascii (to_upper c) <? 128) = true /\ (nat_of_ascii (to_lower c) <? 128) = true.
Proof.
  destruct c as [[] [] [] [] [] [] [] []]; intros H; try discriminate H;
    split; reflexivity.
Qed.

Lemma camel_ascii (s : string) :
  ascii_text s -> forall cased, ascii_text (camel cased s).
Proof.
  unfold ascii_text. induction s as [| c s IH]; simpl; intros H cased; [reflexivity |].
  apply andb_true_iff in H. destruct H as [Hc Hs].
  destruct (case_ascii c Hc) as [Hu Hl].
  destruct (Ascii.eqb c "_"); [now apply IH |].
  destruct (is_lower c); simpl.
  - rewrite (IH Hs true). destruct cased; [now rewrite Hc | now rewrite Hu].
  - destruct (is_upper c); simpl.
    + rewrite (IH Hs true). destruct cased; [now rewrite Hl | now rewrite Hc].
    + now rewrite (IH Hs false), Hc.
Qed.

(** X1.  On a name of ASCII characters, [to_camel_case] reads its argument
    once, from left to right: an underscore is dropped, a letter is put in
    upper case when it is the first character or follows a character that
    is not a letter, and in lower case when it follows a letter; every
    other character is kept.  No underscore is left in the result, which
    is a text of ASCII characters again.  (Beyond ASCII the letters of
    Python are more than those of this development.) *)
Theorem to_camel_case_one_pass (snake_str : string) :
  ascii_text snake_str ->
  to_camel_case snake_str = camel false snake_str
  /\ ~ In "_"%char (chars (to_camel_case snake_str))
  /\ ascii_text (to_camel_case snake_str).
Proof.
  intros Ha. split; [apply to_camel_case_camel |].
  rewrite to_camel_case_camel. split; [apply camel_no_underscore |].
  now apply camel_ascii.
Qed.

(** X2.  The name made from two texts joined by an underscore is the two
    names put together: the text after an underscore is converted on its
    own. *)
Theorem to_camel_case_underscore (a b : string) :
  to_camel_case (a +++ "_" +++ b) = to_camel_case a +++ to_camel_case b.
Proof. rewrite !to_camel_case_camel. apply camel_app. Qed.

Lemma lower_ascii (s : string) : ascii_text s -> ascii_text (lower s).
Proof.
  unfold ascii_text. induction s as [| c s IH]; simpl; intros H; [reflexivity |].
  apply andb_true_iff in H. destruct H as [Hc Hs].
  destruct (case_ascii c Hc) as [_ Hl]. now rewrite Hl, IH.
Qed.

(** X3.  The case of the letters of a component name of ASCII characters
    does not reach the name of its property dictionary: the name and its
    lower-case form, a text of ASCII characters too, are converted to the
    same text. *)
Theorem to_camel_case_ignores_case (snake_str : string) :
  ascii_text snake_str ->
  ascii_text (lower snake_str)
  /\ to_camel_case (lower snake_str) = to_camel_case snake_str.
Proof.
  intros Ha. split; [now apply lower_ascii |].
  rewrite !to_camel_case_camel. apply camel_lower.
Qed.

(** X4.  In a component name of ASCII characters, an underscore that no
    letter follows leaves no trace: with and without it, the name is
    converted to the same text (as [label_1] and [label1] are). *)
Theorem to_camel_case_lost_underscore (a b : string) :
  ascii_text a -> ascii_text b ->
  no_letter_first b ->
  to_camel_case (a +++ "_" +++ b) = to_camel_case (a +++ b).
Proof.
  intros _ _ Hb. rewrite !to_camel_case_camel, camel_app.
  symmetry. now apply camel_skip.
Qed.

(** ** What the normalizer refuses *)

Lemma for_each_raises {A S : Type} (I : S -> Prop) (l : list A)
    (body : S -> A -> result S) (a : A) (s : S) :
  In a l -> I s ->
  (forall s b s', In b l -> I s -> body s b = Ok s' -> I s') ->
  (forall s, I s -> exists e, body s a = Raise e) ->
  exists e, for_each l body s = Raise e.
Proof.
  intros Hin Hs Hstep Ha. revert s Hs.
  induction l as [| b l IH]; simpl; intros s Hs; [contradiction |].
  destruct (body s b) as [s' | e] eqn:E; simpl; [| now exists e].
  destruct Hin as [-> | Hin].
  - destruct (Ha s Hs) as [e He]. congruence.
  - apply IH; auto.
    + intros s0 b0 s0' Hb. apply Hstep. now right.
    + apply (Hstep s b s'); auto. now left.
Qed.

Lemma for_each_raised {A S : Type} (I : S -> Prop) (l : list A)
    (body : S -> A -> result S) (s : S) (e : exception) :
  I s ->
  (forall s b s', In b l -> I s -> body s b = Ok s' -> I s') ->
  for_each l body s = Raise e ->
  exists s' a, In a l /\ I s' /\ body s' a = Raise e.
Proof.
  revert s. induction l as [| b l IH]; simpl; intros s Hs Hstep H; [discriminate |].
  destruct (body s b) as [s' | e'] eqn:E; simpl in H.
  - destruct (IH s') as [s0 [a [Hin [H0 Ha]]]]; auto.
    + apply (Hstep s b s'); auto.
    + intros s0 b0 s0' Hb. apply Hstep. now right.
    + exists s0, a. auto.
  - inversion H. subst e'. exists s, b. auto.
Qed.

Lemma erase_od_get (items items' : odict YAML) (k : string) (c : YAML) :
  map (fun kv => (fst kv, erase (snd kv))) items' =
  map (fun kv => (fst kv, erase (snd kv))) items ->
  od_get k items = Some c ->
  exists c', od_get k items' = Some c' /\ erase c' = erase c.
Proof.
  revert items'. induction items as [| [k0 c0] items IH]; intros items' H Hg;
    [discriminate |].
  destruct items' as [| [k1 c1] items']; [discriminate |].
  simpl in H. inversion H. subst k1. simpl in *.
  destruct (String.eqb k0 k).
  - inversion Hg. subst c0. now exists c1.
  - now apply IH.
Qed.

Lemma erase_nth_error (items items' : list YAML) (i : nat) (c : YAML) :
  map erase items' = map erase items ->
  nth_error items i = Some c ->
  exists c', nth_error items' i = Some c' /\ erase c' = erase c.
Proof.
  revert items' i. induction items as [| c0 items IH]; intros items' i H Hn.
  - destruct i; discriminate.
  - destruct items' as [| c1 items']; [discriminate |].
    simpl in H. inversion H. destruct i as [| i]; simpl in *.
    + inversion Hn. subst c0. now exists c1.
    + now apply IH.
Qed.

Lemma od_get_keys {A : Type} (k : string) (d : odict A) :
  In k (map fst d) -> exists a, od_get k d = Some a.
Proof.
  induction d as [| [k0 a0] d IH]; simpl; [contradiction |].
  intros H. destruct (String.eqb k0 k) eqn:E; [now exists a0 |].
  apply String.eqb_neq in E. destruct H as [H | H]; [contradiction | now apply IH].
Qed.

Lemma validate_text_raised (c : YAML) (e : exception) :
  is_scalar c = true -> validate_text c = Raise e ->
  e = ValidationError \/ e = PyValueError.
Proof.
  destruct c as [t x | |]; try discriminate. intros _.
  unfold validate_text, revalidate, validate_scalar. cbn [text_of bind].
  repeat match goal with
         | |- context [if ?b then _ else _] => destruct b
         | |- context [match float_repr ?t with _ => _ end] => destruct (float_repr t)
         end; cbn [bind]; intros H; inversion H; auto.
Qed.

(** The exceptions of [validate_yaml]: a validator refused a node, [float]
    could not read a text, or the index is not one of [value]. *)
Lemma validate_yaml_raised (fuel : nat) :
  forall v ix e,
    validate_yaml fuel v ix = Raise e ->
    e = ValidationError \/ e = PyValueError \/ e = OutOfFuel \/ getitem v ix = Raise e.
Proof.
  induction fuel as [| fuel IH]; intros v ix e H.
  - inversion H. auto.
  - rewrite validate_yaml_unfold in H.
    destruct (getitem v ix) as [c | e0] eqn:Eg; cbn [bind] in H; [| auto].
    destruct (normalize fuel c) as [c' | e1] eqn:En; cbn [bind] in H; [discriminate |].
    inversion H. subst e1. clear H.
    destruct c as [t x | items | items].
    + destruct (validate_text_raised (Scalar t x) e eq_refl En); auto.
    + unfold normalize in En. destruct (len (Mapping items) =? 0).
      { inversion En. auto. }
      destruct (for_each_raised (fun s => erase s = erase (Mapping items)) _ _ _ _
                  eq_refl
                  (fun s b s' _ Hs Hb =>
                     eq_trans (validate_yaml_erase fuel s (Key b) s' Hb) Hs) En)
        as [s [key [Hin [Hs Hr]]]].
      destruct (IH _ _ _ Hr) as [-> | [-> | [-> | Hg]]]; auto.
      exfalso. destruct (erase_shape _ _ Hs) as [items' ->].
      rewrite <- (erase_keys _ _ Hs) in Hin.
      destruct (od_get_keys _ _ Hin) as [a Ha]. simpl in Hg. now rewrite Ha in Hg.
    + unfold normalize in En. destruct (len (Sequence items) =? 0).
      { inversion En. auto. }
      destruct (for_each_raised (fun s => erase s = erase (Sequence items)) _ _ _ _
                  eq_refl
                  (fun s b s' _ Hs Hb =>
                     eq_trans (validate_yaml_erase fuel s (Ix b) s' Hb) Hs) En)
        as [s [i [Hin [Hs Hr]]]].
      destruct (IH _ _ _ Hr) as [-> | [-> | [-> | Hg]]]; auto.
      exfalso. apply in_seq in Hin.
      rewrite <- (erase_len _ _ Hs) in Hin.
      destruct (erase_shape _ _ Hs) as [items' ->]. simpl in Hin, Hg.
      destruct (nth_error items' i) eqn:En'; [discriminate |].
      apply nth_error_None in En'. lia.
Qed.

Lemma validate_yaml_present_raised (fuel : nat) (v : YAML) (ix : index) (c : YAML)
    (e : exception) :
  getitem v ix = Ok c -> depth v < fuel ->
  validate_yaml fuel v ix = Raise e ->
  e = ValidationError \/ e = PyValueError.
Proof.
  intros Hg Hf H. destruct (validate_yaml_raised _ _ _ _ H) as [-> | [-> | [-> | Hx]]]; auto.
  - exfalso. now apply (validate_yaml_fuel _ _ _ Hf H).
  - congruence.
Qed.

Lemma holds_empty_raises (c : YAML) :
  holds_empty c ->
  forall fuel v ix c0,
    getitem v ix = Ok c0 -> erase c0 = erase c ->
    exists e, validate_yaml fuel v ix = Raise e.
Proof.
  induction 1 as [| | k c items Hk Hc IH | i c items Hi Hc IH];
    intros fuel v ix c0 Hg He;
    (destruct fuel as [| fuel]; [now exists OutOfFuel |]);
    rewrite validate_yaml_unfold, Hg; cbn [bind].
  - destruct c0 as [| [|] |]; try discriminate. simpl. now exists ValidationError.
  - destruct c0 as [| | [|]]; try discriminate. simpl. now exists ValidationError.
  - assert (exists e, normalize fuel c0 = Raise e) as [e ->]; [| now exists e].
    destruct c0 as [| items1 |]; try discriminate. unfold normalize.
    destruct (len (Mapping items1) =? 0); [now exists ValidationError |].
    simpl in He. injection He as He.
    destruct (erase_od_get _ _ _ _ He Hk) as [c1 [Hk1 Hc1]].
    apply (for_each_raises (fun s => erase s = erase (Mapping items1)) _ _ k).
    + apply (od_get_In _ _ _) in Hk1. now apply (in_map fst) in Hk1.
    + reflexivity.
    + intros s b s' _ Hs Hb. now rewrite (validate_yaml_erase _ _ _ _ Hb).
    + intros s Hs. destruct (erase_shape _ _ Hs) as [items2 ->].
      simpl in Hs. injection Hs as Hs.
      destruct (erase_od_get _ _ _ _ Hs Hk1) as [c2 [Hk2 Hc2]].
      apply (IH fuel (Mapping items2) (Key k) c2); [simpl; now rewrite Hk2 | congruence].
  - assert (exists e, normalize fuel c0 = Raise e) as [e ->]; [| now exists e].
    destruct c0 as [| | items1]; try discriminate. unfold normalize.
    destruct (len (Sequence items1) =? 0); [now exists ValidationError |].
    simpl in He. injection He as He.
    destruct (erase_nth_error _ _ _ _ He Hi) as [c1 [Hi1 Hc1]].
    apply (for_each_raises (fun s => erase s = erase (Sequence items1)) _ _ i).
    + apply in_seq. simpl. split; [lia |].
      apply nth_error_Some. congruence.
    + reflexivity.
    + intros s b s' _ Hs Hb. now rewrite (validate_yaml_erase _ _ _ _ Hb).
    + intros s Hs. destruct (erase_shape _ _ Hs) as [items2 ->].
      simpl in Hs. injection Hs as Hs.
      destruct (erase_nth_error _ _ _ _ Hs Hi1) as [c2 [Hi2 Hc2]].
      apply (IH fuel (Sequence items2) (Ix i) c2); [simpl; now rewrite Hi2 | congruence].
Qed.

(** X5.  A value that holds an empty mapping or an empty sequence, at
    whatever depth, does not get through the normalizer: [validate_yaml]
    raises on it, and so does [add_properties] on a component with such a
    value among its properties.  The exception is the refusal of a
    validator, or the [ValueError] of [float] on a text met before the
    empty node. *)
Theorem validate_yaml_refuses_empty (fuel : nat) (value : YAML) (sequence_key : index)
    (child : YAML) :
  getitem value sequence_key = Ok child ->
  holds_empty child ->
  depth value < fuel ->
  (exists e,
      validate_yaml fuel value sequence_key = Raise e
      /\ (e = ValidationError \/ e = PyValueError))
  /\ (sequence_key = Key "properties" -> len child <> 0 ->
      forall parent,
      exists e,
        add_properties value parent = Raise e
        /\ (e = ValidationError \/ e = PyValueError)).
Proof.
  intros Hg Hc Hf.
  assert (Hr : forall fuel, depth value < fuel ->
                 exists e, validate_yaml fuel value sequence_key = Raise e
                           /\ (e = ValidationError \/ e = PyValueError)).
  { intros f Hlt.
    destruct (holds_empty_raises _ Hc f _ _ _ Hg eq_refl) as [e He].
    exists e. split; [exact He |].
    exact (validate_yaml_present_raised _ _ _ _ _ Hg Hlt He). }
  split; [now apply Hr |].
  intros -> Hl p. unfold add_properties.
  rewrite (get_getitem _ _ _ Hg). cbn [bind].
  apply Nat.eqb_neq in Hl. rewrite Hl.
  destruct (Hr (S (depth value)) (Nat.lt_succ_diag_r _)) as [e [He Hk]].
  exists e. rewrite He. split; [reflexivity | exact Hk].
Qed.

(** ** A property keyed [parent] *)

Lemma od_set_present {A : Type} (k : string) (a : A) (d : odict A) :
  NoDup (map fst d) -> In k (map fst d) ->
  od_set k a d = map (fun kv => if String.eqb (fst kv) k then (k, a) else kv) d.
Proof.
  induction d as [| [k0 a0] d IH]; simpl; intros Hnd Hin; [contradiction |].
  inversion Hnd as [| ? ? Hk0 Hnd']. subst.
  destruct (String.eqb k0 k) eqn:E.
  - apply String.eqb_eq in E. subst k0. f_equal.
    rewrite <- (map_id d) at 1. apply map_ext_in. intros [k1 a1] H1. simpl.
    destruct (String.eqb k1 k) eqn:E1; [| reflexivity].
    apply String.eqb_eq in E1. subst k1. exfalso. apply Hk0.
    now apply (in_map fst) in H1.
  - apply String.eqb_neq in E. destruct Hin as [Hin | Hin]; [contradiction |].
    f_equal. now apply IH.
Qed.

Lemma line_breaks_block_line (kv : string * YAML) :
  (fst kv <> "parent" -> inner_breaks kv = 0) -> line_breaks (block_line kv) = 1.
Proof.
  unfold block_line. destruct (String.eqb (fst kv) "parent") eqn:E; intros H.
  - reflexivity.
  - rewrite line_breaks_property_line, H; [reflexivity |]. now apply String.eqb_neq.
Qed.

Lemma list_sum_ones {A : Type} (f : A -> nat) (l : list A) :
  (forall a, In a l -> f a = 1) -> list_sum (map f l) = List.length l.
Proof.
  induction l as [| a l IH]; simpl; intros H; [reflexivity |].
  rewrite (H a (or_introl eq_refl)), IH; [reflexivity |].
  intros b Hb. apply H. now right.
Qed.

(** X6.  A property the document keys [parent] is overwritten where it
    stands by the synthetic entry: the block of a component with N
    properties, one of them keyed [parent], is the text of one line per
    property, the line [parent = Container()] at the place of that
    property, and the value the document gave it is not printed.  The
    text has exactly N lines when no other key and no other value as it
    is printed holds a line break. *)
Theorem property_block_parent_key (value : YAML) (parent : string) (props : odict YAML)
    (value' : YAML) (card : CatalogCard) :
  getitem value (Key "properties") = Ok (Mapping props) ->
  NoDup (map fst props) ->
  In "parent" (map fst props) ->
  lowest_level_component value parent = Ok (value', card) ->
  exists props',
    getitem value' (Key "properties") = Ok (Mapping props')
    /\ map fst props' = map fst props
    /\ as_string card = join (map block_line props')
    /\ ((forall kv, In kv props' -> fst kv <> "parent" -> inner_breaks kv = 0) ->
        line_breaks (as_string card) = List.length props).
Proof.
  intros Hg Hnd Hp Hl. apply lowest_level_component_Ok in Hl.
  destruct Hl as [n [xn [t [xt [attrs [_ [_ [Ha ->]]]]]]]].
  assert (Hne : props <> []) by (intros ->; contradiction).
  destruct (add_properties_mapping _ _ _ _ _ Ha Hg Hne) as [c' [En [-> [d [Ed ->]]]]].
  pose proof (normalize_erase _ _ _ En) as He.
  destruct (erase_shape _ _ He) as [props' ->].
  pose proof (erase_keys _ _ He) as Hk.
  exists props'. split; [now apply (getitem_store_same _ _ _ _ Hg) |].
  split; [exact Hk |].
  simpl in Ed. inversion Ed. subst d. clear Ed.
  assert (Hnd' : NoDup (map fst (map (fun kv => (fst kv, data (snd kv))) props')))
    by (rewrite data_keys, Hk; exact Hnd).
  rewrite (od_update_nil_fresh _ Hnd').
  unfold od_update. simpl fold_left.
  rewrite od_set_present by (try rewrite data_keys, Hk; assumption).
  assert (Hs : dict2string n
                 (text_keys
                    (map (fun kv => if String.eqb (fst kv) "parent"
                                    then ("parent", PyStr "Container()") else kv)
                       (map (fun kv => (fst kv, data (snd kv))) props'))) =
               join (map block_line props')).
  { rewrite dict2string_lines. f_equal.
    unfold dict2lines, text_keys. rewrite !map_map.
    apply map_ext. intros kv. unfold block_line. simpl.
    destruct (String.eqb (fst kv) "parent") eqn:E; simpl.
    + reflexivity.
    + apply property_line_dict. now apply String.eqb_neq. }
  cbn [as_string]. rewrite Hs. split; [reflexivity |].
  intros H0. rewrite line_breaks_join, map_map.
  rewrite (list_sum_ones (fun kv => line_breaks (block_line kv)) props').
  - apply (f_equal (@List.length _)) in Hk. now rewrite !length_map in Hk.
  - intros kv Hin. apply line_breaks_block_line. now apply H0.
Qed.

(** ** The normalizer on any index *)

(** X7.  [validate_yaml] changes nothing but the values of scalars below
    the index it is given: the keys, the order and the texts of the
    document stay, the children at the other indices are the same, and a
    second call changes nothing any more. *)
Theorem validate_yaml_only_retypes (fuel : nat) (value : YAML) (sequence_key : index)
    (value' : YAML) :
  validate_yaml fuel value sequence_key = Ok value' ->
  erase value' = erase value
  /\ (forall other, other <> sequence_key -> getitem value' other = getitem value other)
  /\ validate_yaml fuel value' sequence_key = Ok value'.
Proof.
  intros H. split; [exact (validate_yaml_erase fuel _ _ _ H) |].
  split; [| exact (validate_yaml_idem fuel _ _ _ H)].
  intros other Hne. destruct fuel as [| fuel]; [discriminate |].
  rewrite validate_yaml_unfold in H.
  destruct (getitem value sequence_key) as [c |]; cbn [bind] in H; [| discriminate].
  destruct (normalize fuel c) as [c' |]; cbn [bind] in H; [| discriminate].
  inversion H. apply getitem_store_other. congruence.
Qed.

(** ** The catalog and the generated text *)

Lemma emit_catalog_acc (form_name : string) (catalog : odict CatalogCard) :
  forall s,
    fold_left
      (fun s kv =>
         let key := fst kv in
         let item := snd kv in
         if String.eqb key form_name then s
         else (fst s +++ name item +++ " = dict(" +++ NL +++ as_string item +++ ")" +++ NL,
               snd s +++ "    " +++ key +++ " = " +++ of_type item +++ "(**" +++
               name item +++ ")" +++ NL))
      catalog s =
    (fst s +++ join (map card_block (emitted catalog form_name)),
     snd s +++ join (map attr_line (emitted catalog form_name))).
Proof.
  induction catalog as [| [k item] catalog IH]; intros [a b];
    cbn [fold_left emitted filter fst snd].
  - cbn [map join fold_right]. now rewrite !append_nil_r.
  - destruct (String.eqb k form_name); cbn [negb]; [apply IH |].
    rewrite IH. cbn [fst snd map join fold_right].
    unfold card_block at 2, attr_line at 2. cbn [fst snd].
    now rewrite !append_assoc.
Qed.

Lemma emitted_od_set (form_name : string) (card : CatalogCard)
    (catalog : odict CatalogCard) :
  emitted (od_set form_name card catalog) form_name = emitted catalog form_name.
Proof.
  induction catalog as [| [k item] catalog IH]; simpl.
  - now rewrite String.eqb_refl.
  - destruct (String.eqb k form_name) eqn:E; simpl; rewrite E; simpl;
      [reflexivity | now rewrite IH].
Qed.

(** X8.  The loop of [yaml2definition] over the catalog writes one block
    and one attribute line for every entry that is not keyed by the form
    name, in the order of the catalog, and nothing for the entry of the
    form: the card stored under the form name has no part in them. *)
Theorem emit_catalog_layout (catalog : odict CatalogCard) (form_name : string) :
  emit_catalog catalog form_name =
  (join (map card_block (emitted catalog form_name)),
   join (map attr_line (emitted catalog form_name)))
  /\ Forall (fun kv => fst kv <> form_name) (emitted catalog form_name)
  /\ (forall card,
        emit_catalog (od_set form_name card catalog) form_name =
        emit_catalog catalog form_name).
Proof.
  assert (E : forall cat,
             emit_catalog cat form_name =
             (join (map card_block (emitted cat form_name)),
              join (map attr_line (emitted cat form_name))))
    by (intros cat; unfold emit_catalog; now rewrite emit_catalog_acc).
  split; [apply E |]. split.
  - apply Forall_forall. intros kv Hin. apply filter_In in Hin.
    destruct Hin as [_ Hk]. apply negb_true_iff in Hk. now apply String.eqb_neq.
  - intros card. now rewrite !E, emitted_od_set.
Qed.

Lemma own_name_nameless (items : odict YAML) (p : string) :
  od_get "name" items = None -> own_name (Mapping items) p = Ok (p, true).
Proof. intros H. unfold own_name. simpl. now rewrite H. Qed.

(** What a successful run on a document without a [name] at its root went
    through. *)
Lemma derive_dict_nameless (fuel : nat) (items : odict YAML) (cat : odict CatalogCard)
    (p : string) (v' : YAML) (cat' : odict CatalogCard) :
  od_get "name" items = None ->
  derive_dict fuel (Mapping items) cat p = Ok (v', cat') ->
  exists w ip c ci c2 t xt attrs cat1,
    (forall k, k <> "components" -> getitem w (Key k) = getitem (Mapping items) (Key k)) /\
    od_get "container" items = Some c /\
    c = Mapping ci /\
    getitem c (Key "type") = Ok (Scalar t xt) /\
    add_properties (Mapping (od_set "name" (raw TOP_LEVEL_NAME) ci)) ip = Ok (c2, attrs) /\
    v' = store w (Key "container") c2 /\
    cat' = od_set p (mkCatalogCard (to_camel_case TOP_LEVEL_NAME) t ip
                       (dict2string TOP_LEVEL_NAME attrs)) cat1.
Proof.
  intros Hn H. destruct fuel as [| fuel]; [discriminate |].
  apply derive_dict_Ok in H.
  destruct H as [n [top [children [children' [cat1 [card [Ho [_ [_ [He ->]]]]]]]]]].
  rewrite (own_name_nameless _ _ Hn) in Ho. inversion Ho. subst n top. clear Ho.
  apply entry_Ok in He. destruct He as [[Ht _] | [_ [c [c1 [c2 [Hc [Hs [Hl ->]]]]]]]];
    [discriminate |].
  rewrite with_components_getitem in Hc by discriminate.
  destruct (setitem_card _ _ _ _ _ _ Hs Hl) as [ci [-> ->]].
  apply lowest_level_component_Ok in Hl.
  destruct Hl as [n [xn [t [xt [attrs [Hname [Htype [Ha ->]]]]]]]].
  simpl in Hname. rewrite od_get_set_same in Hname. inversion Hname. subst n xn.
  simpl in Htype. rewrite od_get_set_other in Htype by discriminate.
  exists (with_components (Mapping items) children'),
    (inner_parent (Mapping items) p p), (Mapping ci), ci, c2, t, xt, attrs, cat1.
  repeat apply conj; auto.
  - intros k Hk. now apply with_components_getitem.
  - simpl in Hc. destruct (od_get "container" items); now inversion Hc.
Qed.

(** X9.  For a document without a [name] at its root, the class of the
    generated text is named after the form and declared with the [type] of
    the root's [container] as its base: the text is the header, the
    blocks, the line [class <form name>Template(<type>):], the attribute
    lines and the footer. *)
Theorem yaml2definition_class_line (items : odict YAML) (form_name : string)
    (parsed' : YAML) (text : string) :
  od_get "name" items = None ->
  yaml2definition (Mapping items) form_name = Ok (parsed', text) ->
  exists c t x catalog,
    od_get "container" items = Some c
    /\ getitem c (Key "type") = Ok (Scalar t x)
    /\ derive_dict (S (depth (Mapping items))) (Mapping items) [] form_name =
       Ok (parsed', catalog)
    /\ text =
       HEADER +++ fst (emit_catalog catalog form_name) +++
       "class " +++ form_name +++ "Template(" +++ t +++ "):" +++ NL +++
       snd (emit_catalog catalog form_name) +++ FOOTER.
Proof.
  intros Hn H. unfold yaml2definition in H.
  destruct (derive_dict (S (depth (Mapping items))) (Mapping items) [] form_name)
    as [[p' cat] |] eqn:Ed; cbn [bind] in H; [| discriminate].
  destruct (derive_dict_nameless _ _ _ _ _ _ Hn Ed)
    as [w [ip [c [ci [c2 [t [xt [attrs [cat1 [_ [Hc [_ [Ht [_ [_ Hcat]]]]]]]]]]]]]]].
  cbn [fst snd] in H. rewrite Hcat, od_get_set_same in H. rewrite <- Hcat in H.
  inversion H. subst p' text. exists c, t, xt, cat. auto.
Qed.

(** X10.  A run on a document without a [name] at its root writes to the
    document it is given: afterwards the root's [container] carries the
    name [container], whether it had a name before or not. *)
Theorem yaml2definition_names_container (items : odict YAML) (form_name : string)
    (parsed' : YAML) (text : string) :
  od_get "name" items = None ->
  yaml2definition (Mapping items) form_name = Ok (parsed', text) ->
  exists container',
    getitem parsed' (Key "container") = Ok container'
    /\ getitem container' (Key "name") = Ok (raw TOP_LEVEL_NAME).
Proof.
  intros Hn H. unfold yaml2definition in H.
  destruct (derive_dict (S (depth (Mapping items))) (Mapping items) [] form_name)
    as [[p' cat] |] eqn:Ed; cbn [bind] in H; [| discriminate].
  destruct (od_get form_name (snd (p', cat))) as [form |]; inversion H. subst p'. clear H.
  destruct (derive_dict_nameless _ _ _ _ _ _ Hn Ed)
    as [w [ip [c [ci [c2 [t [xt [attrs [cat1 [Hw [Hc [-> [_ [Ha [-> _]]]]]]]]]]]]]]].
  exists c2. split.
  - apply (getitem_store_same _ _ (Mapping ci)).
    rewrite Hw by discriminate. simpl. now rewrite Hc.
  - rewrite (add_properties_getitem _ _ _ _ "name" Ha) by discriminate.
    simpl. now rewrite od_get_set_same.
Qed.

(** X11.  The entry [derive_dict] puts in the catalog for the node it is
    called on is keyed by the name of the node, or by the name handed
    down when the node has none.  The [parent] of its card is the node's
    own key when the node has a [components] key, and the name handed
    down otherwise; its [name] is the camel case of the node's name, or of
    [container] for a node without a name. *)
Theorem derive_dict_card (fuel : nat) (value : YAML) (catalog : odict CatalogCard)
    (parent0 : string) (value' : YAML) (catalog' : odict CatalogCard) :
  derive_dict fuel value catalog parent0 = Ok (value', catalog') ->
  exists key top_level card,
    own_name value parent0 = Ok (key, top_level)
    /\ od_get key catalog' = Some card
    /\ parent card = (if has_key "components" value then key else parent0)
    /\ name card = to_camel_case (if top_level then TOP_LEVEL_NAME else key).
Proof.
  intros H. destruct fuel as [| fuel]; [discriminate |].
  apply derive_dict_Ok in H.
  destruct H as [n [top [children [children' [cat1 [card [Ho [_ [_ [He ->]]]]]]]]]].
  exists n, top, card. split; [exact Ho |]. split; [apply od_get_set_same |].
  apply entry_Ok in He.
  destruct He as [[-> Hl] | [-> [c [c1 [c2 [Hc [Hs [Hl _]]]]]]]];
    apply lowest_level_component_Ok in Hl;
    destruct Hl as [n' [xn [t [xt [attrs [Hname [_ [_ ->]]]]]]]];
    (split; [reflexivity |]); cbn [name]; f_equal.
  - rewrite with_components_getitem in Hname by discriminate.
    destruct (own_name_mapping _ _ _ _ Ho) as [items [-> [[x [Hx _]] | [_ [_ Ht]]]]];
      [| discriminate].
    simpl in Hname. rewrite Hx in Hname. now inversion Hname.
  - apply setitem_Ok in Hs.
    destruct Hs as [[ci [-> ->]] | [t0 [x0 [-> ->]]]]; simpl in Hname;
      [rewrite od_get_set_same in Hname |]; now inversion Hname.
Qed.

Lemma od_set_keys {A : Type} (k : string) (a : A) (d : odict A) :
  (NoDup (map fst d) -> NoDup (map fst (od_set k a d)))
  /\ (forall k', In k' (map fst (od_set k a d)) <-> k' = k \/ In k' (map fst d)).
Proof.
  induction d as [| [k0 a0] d [IH1 IH2]]; simpl.
  - split; [intros _; repeat constructor; tauto | intros k'; intuition].
  - destruct (String.eqb k0 k) eqn:E; simpl.
    + apply String.eqb_eq in E. subst k0. split; [auto | intros k'; intuition].
    + split.
      * intros Hnd. inversion Hnd as [| ? ? Hk0 Hnd']. subst. constructor; auto.
        rewrite IH2. apply String.eqb_neq in E. intuition.
      * intros k'. rewrite IH2. intuition.
Qed.

Lemma od_update_keys {A : Type} (l d : odict A) :
  (NoDup (map fst d) -> NoDup (map fst (od_update d l)))
  /\ (forall k, In k (map fst (od_update d l)) <-> In k (map fst d) \/ In k (map fst l)).
Proof.
  revert d. induction l as [| [k a] l IH]; intros d; unfold od_update; simpl.
  - split; [auto | intros k; intuition].
  - destruct (IH (od_set k a d)) as [IH1 IH2]. unfold od_update in IH1, IH2.
    destruct (od_set_keys k a d) as [S1 S2]. split.
    + intros Hnd. auto.
    + intros k'. rewrite IH2, S2. intuition.
Qed.

Lemma od_get_absent {A : Type} (k : string) (d : odict A) :
  ~ In k (map fst d) -> od_get k d = None.
Proof.
  intros H. destruct (od_get k d) as [a |] eqn:E; [| reflexivity].
  exfalso. apply H. apply od_get_In in E. now apply (in_map fst) in E.
Qed.

Lemma derive_dict_keys (fuel : nat) (doc : YAML) (catalog : odict CatalogCard)
    (form_name : string) (doc' : YAML) (catalog' : odict CatalogCard) :
  derive_dict fuel doc catalog form_name = Ok (doc', catalog') ->
  (NoDup (od_keys catalog) -> NoDup (od_keys catalog'))
  /\ (forall key,
        In key (od_keys catalog') <->
        In key (od_keys catalog) \/ In key (postorder (component_tree doc form_name))).
Proof.
  intros H. apply derive_dict_postorder in H. destruct H as [cards [Hl ->]].
  destruct (od_update_keys (combine (postorder (component_tree doc form_name)) cards)
              catalog) as [K1 K2].
  rewrite combine_keys in K2 by exact Hl.
  split; [exact K1 | exact K2].
Qed.

(** X12.  The catalog never holds a key twice.  After [derive_dict] its
    keys are the keys it had and the keys of the nodes of the component
    tree: nodes that share a name share one entry. *)
Theorem derive_dict_catalog_keys (fuel : nat) (doc : YAML) (catalog : odict CatalogCard)
    (form_name : string) (doc' : YAML) (catalog' : odict CatalogCard) :
  NoDup (od_keys catalog) ->
  derive_dict fuel doc catalog form_name = Ok (doc', catalog') ->
  NoDup (od_keys catalog')
  /\ (forall key,
        In key (od_keys catalog') <->
        In key (od_keys catalog) \/ In key (postorder (component_tree doc form_name))).
Proof.
  intros Hnd H. destruct (derive_dict_keys _ _ _ _ _ _ H) as [K1 K2].
  split; [now apply K1 | exact K2].
Qed.

(** X13.  When no node of the component tree is keyed by the form name,
    which takes a root with a name of its own, the generation never
    succeeds: once the catalog is built, the lookup of the form's entry
    raises [KeyError] with the form name. *)
Theorem yaml2definition_no_form_entry (parsed : YAML) (form_name : string) :
  ~ In form_name (postorder (component_tree parsed form_name)) ->
  (forall r, yaml2definition parsed form_name <> Ok r)
  /\ (forall r,
        derive_dict (S (depth parsed)) parsed [] form_name = Ok r ->
        yaml2definition parsed form_name = Raise (KeyError form_name)).
Proof.
  intros Hf.
  assert (K : forall r,
             derive_dict (S (depth parsed)) parsed [] form_name = Ok r ->
             yaml2definition parsed form_name = Raise (KeyError form_name)).
  { intros [p' cat] Hd. unfold yaml2definition. rewrite Hd. cbn [bind snd].
    destruct (derive_dict_keys _ _ _ _ _ _ Hd) as [_ K2].
    rewrite od_get_absent; [reflexivity |].
    intros Hin. apply K2 in Hin. destruct Hin as [[] | Hin]. now apply Hf. }
  split; [| exact K].
  intros r H.
  destruct (derive_dict (S (depth parsed)) parsed [] form_name) as [r0 |] eqn:Hd.
  - rewrite (K r0 eq_refl) in H. discriminate.
  - unfold yaml2definition in H. rewrite Hd in H. discriminate.
Qed.

(** ** The exceptions of the normalizer *)

(** X14.  On an index that the value holds, [validate_yaml] raises for
    two reasons only: a validator refused a node below the index, or
    [float] could not read a text the [Float] validator let through. *)
Theorem validate_yaml_exceptions (fuel : nat) (value : YAML) (sequence_key : index)
    (child : YAML) (e : exception) :
  getitem value sequence_key = Ok child ->
  depth value < fuel ->
  validate_yaml fuel value sequence_key = Raise e ->
  e = ValidationError \/ e = PyValueError.
Proof.
  intros Hg Hf H. destruct (validate_yaml_raised _ _ _ _ H) as [-> | [-> | [-> | Hx]]]; auto.
  - exfalso. now apply (validate_yaml_fuel _ _ _ Hf H).
  - congruence.
Qed.

(** The generator never runs out of the fuel its entry points pass. *)
Lemma yaml2definition_fuel (parsed : YAML) (form_name : string) :
  yaml2definition parsed form_name <> Raise OutOfFuel.
Proof.
  unfold yaml2definition.
  pose proof (derive_dict_fuel (S (depth parsed)) parsed [] form_name
                (Nat.lt_succ_diag_r _)) as H.
  destruct (derive_dict (S (depth parsed)) parsed [] form_name) as [r |];
    cbn [bind]; [| congruence].
  destruct (od_get form_name (snd r)); discriminate.
Qed.

End Generator.

(** ** The examples, evaluated *)

(** Generation with the runtime of the examples. *)
Notation "'example_run'" :=
  (yaml2definition example_float_repr example_container_str).

Lemma example_float_repr_decimal : decimal_float example_float_repr.
Proof.
  intros t Ht. unfold example_float_repr. rewrite Ht.
  destruct (2 <=? points t) eqn:Ep.
  - now apply Nat.leb_le.
  - apply Nat.leb_gt in Ep.
    destruct (has_digit t); simpl;
      [destruct ((points t =? 0) && (String.length t <=? 15)) |]; split; lia || reflexivity.
Qed.

Lemma validate_text_retyping_witness :
  validate_text example_float_repr (raw "true") = Ok (Scalar "true" (PyBool true))
  /\ validate_text example_float_repr (raw "null") = Ok (Scalar "null" PyNone)
  /\ validate_text example_float_repr (raw "20") = Ok (Scalar "20" (PyFloat "20.0"))
  /\ validate_text example_float_repr (raw "1.2.3") = Raise ValidationError
  /\ validate_text example_float_repr (raw ".") = Raise PyValueError
  /\ validate_text example_float_repr (raw "20px") = Ok (raw "20px").
Proof.
  pose proof (validate_text_retyping example_float_repr "true" (PyStr "true")) as T1.
  pose proof (validate_text_retyping example_float_repr "null" (PyStr "null")) as T2.
  pose proof (validate_text_retyping example_float_repr "20" (PyStr "20")) as T3.
  pose proof (validate_text_retyping example_float_repr "1.2.3" (PyStr "1.2.3")) as T4.
  pose proof (validate_text_retyping example_float_repr "." (PyStr ".")) as T5.
  pose proof (validate_text_retyping example_float_repr "20px" (PyStr "20px")) as T6.
  repeat apply conj.
  - apply T1. reflexivity.
  - apply T2. reflexivity.
  - apply T3; [discriminate | apply charset_le_spec; reflexivity].
  - apply T4;
      [discriminate | apply charset_le_spec; reflexivity
       | exact example_float_repr_decimal | vm_compute; lia].
  - apply T5;
      [discriminate | apply charset_le_spec; reflexivity
       | exact example_float_repr_decimal | vm_compute; lia | reflexivity].
  - apply T6; try discriminate.
    intros H. apply charset_le_spec in H. discriminate H.
Defined.

(** The claim C3 fails on the text [1.2.3], made of digits and points: it
    does not become a float, the validator refuses it. *)
Lemma dotted_text_is_not_retyped :
  ~ (exists r,
        validate_text example_float_repr (raw "1.2.3") =
        Ok (Scalar "1.2.3" (PyFloat r))).
Proof.
  intros [r H]. vm_compute in H. discriminate H.
Qed.

Lemma derive_dict_post_order_witness :
  exists doc' catalog,
    derive_dict example_float_repr example_container_str 4 nested_panel [] "Form1" =
    Ok (doc', catalog)
    /\ od_keys catalog = ["A"; "D"; "B"; "C"].
Proof.
  pose proof (derive_dict_post_order example_float_repr example_container_str
                4 nested_panel "Form1") as T.
  destruct (derive_dict example_float_repr example_container_str 4 nested_panel [] "Form1")
    as [[doc' catalog] | e] eqn:E.
  - exists doc', catalog. split; [reflexivity |].
    assert (Hnd : NoDup (postorder (component_tree nested_panel "Form1")))
      by (repeat constructor; simpl; intuition discriminate).
    exact (proj1 (proj2 (T doc' catalog eq_refl) Hnd)).
  - exfalso. vm_compute in E. discriminate E.
Defined.

(** The claim C2 fails on a form whose leaf and panel share the name B:
    the panel's entry takes the place of the leaf's, and stands before
    the entry of A, the panel's own child. *)
Lemma shared_name_breaks_post_order :
  ~ (exists doc' catalog before after,
        derive_dict example_float_repr example_container_str 6 twin_form [] "Form1" =
        Ok (doc', catalog)
        /\ od_keys catalog = before ++ ["A"] ++ ["B"] ++ after).
Proof.
  intros [doc' [catalog [before [after [H1 H2]]]]].
  vm_compute in H1. inversion H1. subst. clear H1. cbn in H2.
  destruct before as [| b1 [| b2 [| b3 before]]]; cbn in H2; try discriminate H2.
  inversion H2. destruct before; discriminate.
Qed.

Lemma add_properties_without_properties_witness :
  add_properties example_float_repr text_box "Form1" = Ok (text_box, [])
  /\ add_properties example_float_repr spacer "Form1" = Ok (spacer, []).
Proof.
  split.
  - apply (add_properties_without_properties example_float_repr example_container_str
             text_box "Form1"). left. reflexivity.
  - apply (add_properties_without_properties example_float_repr example_container_str
             spacer "Form1"). right. reflexivity.
Defined.

(** The claim C1 fails on the text box without properties: its attrs map
    has no [parent] entry. *)
Lemma text_box_has_no_parent_entry :
  ~ (exists value' attrs,
        add_properties example_float_repr text_box "Form1" = Ok (value', attrs)
        /\ od_get "parent" attrs = Some (PyStr "Container()")).
Proof.
  intros [value' [attrs [H1 H2]]]. vm_compute in H1. inversion H1. subst.
  discriminate H2.
Qed.

Lemma property_block_lines_witness :
  exists value' card,
    lowest_level_component example_float_repr example_container_str
      radio_button "Form1" = Ok (value', card)
    /\ as_string card =
       join ["    role = None," +++ NL;
             "    selected = False," +++ NL;
             "    value = 1.0," +++ NL;
             "    text = 'Work '," +++ NL;
             "    font = ''," +++ NL;
             "    parent = Container()," +++ NL]
    /\ line_breaks (as_string card) = 5 + 1.
Proof.
  pose proof (property_block_lines example_float_repr example_container_str
                radio_button "Form1"
                [("role", raw "null"); ("selected", raw "false");
                 ("value", raw "1"); ("text", raw "Work "); ("font", raw EmptyString)]) as T.
  destruct (lowest_level_component example_float_repr example_container_str
              radio_button "Form1") as [[value' card] | e] eqn:E.
  - exists value', card. split; [reflexivity |].
    destruct (T value' card eq_refl) as [_ T2].
    + repeat constructor; simpl; intuition discriminate.
    + simpl. intuition discriminate.
    + reflexivity.
    + destruct (T2 ltac:(discriminate)) as [props' [Hg [_ [Hs [_ Hl]]]]].
      vm_compute in E. inversion E. subst value' card.
      split; [reflexivity |].
      vm_compute in Hg. inversion Hg. subst props'.
      apply Hl. repeat constructor.
  - exfalso. vm_compute in E. discriminate E.
Defined.

(** The claim C4 fails on the spacer, whose [properties] mapping is empty
    (N = 0): its block has no line, not one. *)
Lemma spacer_block_has_no_line :
  ~ (exists value' card,
        lowest_level_component example_float_repr example_container_str
          spacer "Form1" = Ok (value', card)
        /\ line_breaks (as_string card) = 0 + 1).
Proof.
  intros [value' [card [H1 H2]]]. vm_compute in H1. inversion H1. subst.
  discriminate H2.
Qed.

Lemma yaml2definition_label_form_witness :
  exists parsed',
    example_run label_form "Form1" =
    Ok (parsed',
        HEADER +++ label_block +++
        "class Form1Template(ColumnPanel):" +++ NL +++
        "    label_1 = Label(**Label1)" +++ NL +++
        FOOTER).
Proof.
  apply (yaml2definition_label_form example_float_repr example_container_str "Form1").
  discriminate.
Defined.

(** The claim C5 fails on its own example: the text holds neither the
    block nor the class attribute under the raw name [label_1]. *)
Lemma label_form_has_no_raw_name_block :
  ~ (exists parsed' text,
        example_run label_form "Form1" = Ok (parsed', text)
        /\ contains label_block_raw_name text = true
        /\ contains "label_1 = Label(**label_1)" text = true).
Proof.
  intros [parsed' [text [H1 [H2 _]]]]. vm_compute in H1. inversion H1. subst.
  vm_compute in H2. discriminate H2.
Qed.

Lemma yaml2definition_initializer_witness :
  exists parsed' text body,
    example_run label_form "Form1" = Ok (parsed', text) /\ text = body +++ INITIALIZER.
Proof.
  pose proof (yaml2definition_initializer example_float_repr example_container_str
                label_form "Form1") as T.
  destruct (example_run label_form "Form1") as [[parsed' text] | e] eqn:E.
  - destruct (T parsed' text eq_refl) as [[body Hb] _].
    exists parsed', text, body. split; [reflexivity | exact Hb].
  - exfalso. vm_compute in E. discriminate E.
Defined.

(** The claim C6 fails on the label example: no call in the generated
    text is passed the keyword arguments. *)
Lemma initializer_does_not_forward :
  ~ (exists parsed' text,
        example_run label_form "Form1" = Ok (parsed', text) /\ passes_kwargs text = true).
Proof.
  intros [parsed' [text [H1 H2]]]. vm_compute in H1. inversion H1. subst.
  vm_compute in H2. discriminate H2.
Qed.



Lemma validate_yaml_empty_child_witness :
  validate_yaml example_float_repr 2
    (Mapping [("role", raw "null"); ("columns", Mapping [])]) (Key "columns") =
  Raise ValidationError
  /\ exists e, example_run (Mapping [("container", Mapping [("type", raw "ColumnPanel")]);
                             ("components", Sequence [grid])]) "Form1" = Raise e.
Proof.
  split.
  - exact (proj2 (proj1 (validate_yaml_empty_child example_float_repr 1
                           (Mapping [("role", raw "null"); ("columns", Mapping [])])
                           (Key "columns")) eq_refl)).
  - eexists. vm_compute. reflexivity.
Defined.

Lemma yaml2definition_repeatable_witness :
  exists parsed' text,
    example_run label_form "Form1" = Ok (parsed', text)
    /\ example_run parsed' "Form1" = Ok (parsed', text).
Proof.
  pose proof (yaml2definition_repeatable example_float_repr example_container_str
                label_form "Form1") as T.
  destruct (example_run label_form "Form1") as [[parsed' text] | e] eqn:E.
  - exists parsed', text. split; [reflexivity | exact (T parsed' text eq_refl)].
  - exfalso. vm_compute in E. discriminate E.
Defined.


(** ** The further properties on the examples *)

Lemma to_camel_case_one_pass_witness :
  to_camel_case "text_box_email" = camel false "text_box_email"
  /\ ~ In "_"%char (chars (to_camel_case "text_box_email"))
  /\ ascii_text (to_camel_case "text_box_email").
Proof.
  apply (to_camel_case_one_pass "text_box_email"). reflexivity.
Defined.

Lemma to_camel_case_ignores_case_witness :
  to_camel_case (lower "Text_Box_EMail") = to_camel_case "Text_Box_EMail".
Proof.
  apply (to_camel_case_ignores_case "Text_Box_EMail"). reflexivity.
Defined.

Lemma to_camel_case_lost_underscore_witness :
  to_camel_case "label_1" = to_camel_case "label1".
Proof.
  apply (to_camel_case_lost_underscore "label" "1");
    [reflexivity | reflexivity | split; reflexivity].
Defined.

Lemma validate_yaml_refuses_empty_witness :
  (exists e,
      validate_yaml example_float_repr 4 grid (Key "properties") = Raise e
      /\ (e = ValidationError \/ e = PyValueError))
  /\ exists e,
       add_properties example_float_repr grid "Form1" = Raise e
       /\ (e = ValidationError \/ e = PyValueError).
Proof.
  assert (Hg : getitem grid (Key "properties") =
               Ok (Mapping [("role", raw "null"); ("columns", Mapping [])]))
    by reflexivity.
  assert (Hc : holds_empty (Mapping [("role", raw "null"); ("columns", Mapping [])]))
    by (apply (empty_under_key "columns" (Mapping [])); [reflexivity | constructor]).
  assert (Hf : depth grid < 4) by (simpl; lia).
  destruct (validate_yaml_refuses_empty example_float_repr 4 grid (Key "properties")
              _ Hg Hc Hf) as [H1 H2].
  split; [exact H1 | apply H2; [reflexivity | discriminate]].
Defined.

Lemma property_block_parent_key_witness :
  exists value' card,
    lowest_level_component example_float_repr example_container_str
      framed_label "Form1" = Ok (value', card)
    /\ as_string card =
       join ["    parent = Container()," +++ NL;
             "    text = 'Bye'," +++ NL]
    /\ line_breaks (as_string card) = 2.
Proof.
  pose proof (property_block_parent_key example_float_repr example_container_str
                framed_label "Form1"
                [("parent", raw "panel_1"); ("text", raw "Bye")]) as T.
  destruct (lowest_level_component example_float_repr example_container_str
              framed_label "Form1") as [[value' card] | e] eqn:E.
  - exists value', card. split; [reflexivity |].
    destruct (T value' card eq_refl) as [props' [Hg [_ [Hs Hl]]]].
    + repeat constructor; simpl; intuition discriminate.
    + simpl. auto.
    + reflexivity.
    + vm_compute in E. inversion E. subst value' card.
      split; [reflexivity |].
      vm_compute in Hg. inversion Hg. subst props'.
      apply Hl. intros kv [<- | [<- | []]] Hk; [now elim Hk | reflexivity].
  - exfalso. vm_compute in E. discriminate E.
Defined.

Lemma validate_yaml_only_retypes_witness :
  exists value',
    validate_yaml example_float_repr 3 label_1 (Key "properties") = Ok value'
    /\ erase value' = erase label_1
    /\ validate_yaml example_float_repr 3 value' (Key "properties") = Ok value'.
Proof.
  pose proof (validate_yaml_only_retypes example_float_repr 3 label_1 (Key "properties"))
    as T.
  destruct (validate_yaml example_float_repr 3 label_1 (Key "properties"))
    as [value' | e] eqn:E.
  - exists value'. split; [reflexivity |].
    destruct (T value' eq_refl) as [T1 [_ T3]]. split; [exact T1 | exact T3].
  - exfalso. vm_compute in E. discriminate E.
Defined.

Lemma yaml2definition_class_line_witness :
  exists parsed' text catalog,
    example_run label_form "Form1" = Ok (parsed', text)
    /\ text =
       HEADER +++ fst (emit_catalog catalog "Form1") +++
       "class Form1Template(ColumnPanel):" +++ NL +++
       snd (emit_catalog catalog "Form1") +++ FOOTER.
Proof.
  pose proof (yaml2definition_class_line example_float_repr example_container_str
                [("container", Mapping [("type", raw "ColumnPanel")]);
                 ("components", Sequence [label_1])] "Form1") as T.
  destruct (example_run label_form "Form1") as [[parsed' text] | e] eqn:E.
  - exists parsed', text.
    destruct (T parsed' text eq_refl E) as [c [t [x [catalog [Hc [Ht [_ Htext]]]]]]].
    exists catalog. split; [reflexivity |].
    simpl in Hc. inversion Hc. subst c. simpl in Ht. inversion Ht. subst t x.
    exact Htext.
  - exfalso. vm_compute in E. discriminate E.
Defined.

Lemma yaml2definition_names_container_witness :
  exists parsed' text container',
    example_run label_form "Form1" = Ok (parsed', text)
    /\ getitem parsed' (Key "container") = Ok container'
    /\ getitem container' (Key "name") = Ok (raw "container").
Proof.
  pose proof (yaml2definition_names_container example_float_repr example_container_str
                [("container", Mapping [("type", raw "ColumnPanel")]);
                 ("components", Sequence [label_1])] "Form1") as T.
  destruct (example_run label_form "Form1") as [[parsed' text] | e] eqn:E.
  - destruct (T parsed' text eq_refl E) as [container' [H1 H2]].
    exists parsed', text, container'. split; [reflexivity | split; assumption].
  - exfalso. vm_compute in E. discriminate E.
Defined.

Lemma derive_dict_card_witness :
  exists value' catalog' card,
    derive_dict example_float_repr example_container_str 4 nested_panel [] "Form1" =
    Ok (value', catalog')
    /\ od_get "C" catalog' = Some card
    /\ parent card = "C"
    /\ name card = "C".
Proof.
  pose proof (derive_dict_card example_float_repr example_container_str
                4 nested_panel [] "Form1") as T.
  destruct (derive_dict example_float_repr example_container_str 4 nested_panel [] "Form1")
    as [[value' catalog'] | e] eqn:E.
  - destruct (T value' catalog' eq_refl) as [key [top [card [Ho [Hg [Hp Hn]]]]]].
    vm_compute in Ho. inversion Ho. subst key top.
    exists value', catalog', card. split; [reflexivity |].
    split; [exact Hg |]. split; [exact Hp | exact Hn].
  - exfalso. vm_compute in E. discriminate E.
Defined.

Lemma derive_dict_catalog_keys_witness :
  exists doc' catalog',
    derive_dict example_float_repr example_container_str 4 nested_panel [] "Form1" =
    Ok (doc', catalog')
    /\ NoDup (od_keys catalog').
Proof.
  pose proof (derive_dict_catalog_keys example_float_repr example_container_str
                4 nested_panel [] "Form1") as T.
  destruct (derive_dict example_float_repr example_container_str 4 nested_panel [] "Form1")
    as [[doc' catalog'] | e] eqn:E.
  - exists doc', catalog'. split; [reflexivity |].
    apply (T doc' catalog'); [constructor | reflexivity].
  - exfalso. vm_compute in E. discriminate E.
Defined.

Lemma yaml2definition_no_form_entry_witness :
  example_run (leaf "A") "Form1" = Raise (KeyError "Form1").
Proof.
  assert (H : ~ In "Form1" (postorder (component_tree (leaf "A") "Form1")))
    by (simpl; intuition discriminate).
  destruct (yaml2definition_no_form_entry example_float_repr example_container_str
              (leaf "A") "Form1" H) as [_ T].
  destruct (derive_dict example_float_repr example_container_str
              (S (depth (leaf "A"))) (leaf "A") [] "Form1") as [r | e] eqn:E.
  - exact (T r eq_refl).
  - exfalso. vm_compute in E. discriminate E.
Defined.

Lemma validate_yaml_exceptions_witness :
  exists e,
    validate_yaml example_float_repr 4 dotted_label (Key "properties") = Raise e
    /\ (e = ValidationError \/ e = PyValueError).
Proof.
  destruct (validate_yaml example_float_repr 4 dotted_label (Key "properties"))
    as [v | e] eqn:E.
  - exfalso. vm_compute in E. discriminate E.
  - exists e. split; [reflexivity |].
    apply (validate_yaml_exceptions example_float_repr 4 dotted_label (Key "properties")
             (Mapping [("width", raw "."); ("columns", Mapping [])]) e);
      [reflexivity | simpl; lia | exact E].
Defined.

(** * The runtime classes: events and components *)

Lemma od_get_pop_same {A : Type} (k : string) (d : odict A) : od_get k (od_pop k d) = None.
Proof.
  induction d as [| [k0 a0] d IH]; simpl; [reflexivity |].
  destruct (String.eqb k0 k) eqn:E; simpl; [exact IH | now rewrite E].
Qed.

Lemma od_get_pop_other {A : Type} (k k' : string) (d : odict A) :
  k' <> k -> od_get k' (od_pop k d) = od_get k' d.
Proof.
  intros Hk. induction d as [| [k0 a0] d IH]; simpl; [reflexivity |].
  destruct (String.eqb k0 k) eqn:E; simpl.
  - apply String.eqb_eq in E. subst k0.
    apply not_eq_sym in Hk. apply String.eqb_neq in Hk. now rewrite Hk.
  - now rewrite IH.
Qed.

Section RuntimeFacts.

Context {Handler : Type}.
Variable Handler_eq_dec : forall f g : Handler, {f = g} + {f <> g}.
Context {Args World : Type}.
Variable call : Handler -> Args -> World -> outcome World.
Context {Child : Type}.

Lemma same_handler_eq (x y : option Handler) :
  same_handler Handler_eq_dec x y = true <-> x = y.
Proof.
  destruct x as [f |], y as [g |]; simpl; try (split; congruence).
  destruct (Handler_eq_dec f g); split; congruence.
Qed.

Lemma list_remove_absent (x : option Handler) (l : list (option Handler)) :
  ~ In x l -> list_remove Handler_eq_dec x l = Throws ValueError.
Proof.
  induction l as [| y l IH]; simpl; intros H; [reflexivity |].
  destruct (same_handler Handler_eq_dec y x) eqn:E.
  - apply same_handler_eq in E. tauto.
  - rewrite IH; tauto.
Qed.

Lemma list_remove_first (x : option Handler) (l1 l2 : list (option Handler)) :
  ~ In x l1 -> list_remove Handler_eq_dec x (l1 ++ x :: l2) = Returns (l1 ++ l2).
Proof.
  induction l1 as [| y l1 IH]; simpl; intros H.
  - now rewrite (proj2 (same_handler_eq x x) eq_refl).
  - destruct (same_handler Handler_eq_dec y x) eqn:E.
    + apply same_handler_eq in E. tauto.
    + rewrite IH; tauto.
Qed.

Lemma get_add_same (self : @Component Handler) (event_name : string)
    (handler_func : option Handler) :
  get_event_handlers (add_event_handler self event_name handler_func) event_name =
  get_event_handlers self event_name ++ [handler_func].
Proof.
  unfold get_event_handlers, add_event_handler, od_update, od_get_default. simpl.
  now rewrite od_get_set_same.
Qed.

Lemma get_add_other (self : @Component Handler) (event_name other : string)
    (handler_func : option Handler) :
  other <> event_name ->
  get_event_handlers (add_event_handler self event_name handler_func) other =
  get_event_handlers self other.
Proof.
  intros H. unfold get_event_handlers, add_event_handler, od_update, od_get_default.
  simpl. now rewrite od_get_set_other by congruence.
Qed.

Lemma call_each_app (l1 l2 : list (option Handler)) (event_args : Args) :
  forall w,
    call_each call (l1 ++ l2) event_args w =
    match call_each call l1 event_args w with
    | Returns w' => call_each call l2 event_args w'
    | Throws e => Throws e
    end.
Proof.
  induction l1 as [| [f |] l1 IH]; intros w; simpl; try reflexivity.
  destruct (call f event_args w); [apply IH | reflexivity].
Qed.

(** X16.  The handlers of an event are kept in the order in which
    [add_event_handler] was given them, a handler as many times as it was
    added, and the handlers of the other events stay as they are. *)
Theorem add_event_handler_order (self : @Component Handler) (event_name : string)
    (handlers : list (option Handler)) :
  let self' := fold_left (fun c h => add_event_handler c event_name h) handlers self in
  get_event_handlers self' event_name = get_event_handlers self event_name ++ handlers
  /\ (forall other, other <> event_name ->
        get_event_handlers self' other = get_event_handlers self other).
Proof.
  revert self. induction handlers as [| h handlers IH]; intros self; simpl.
  - split; [now rewrite app_nil_r | reflexivity].
  - destruct (IH (add_event_handler self event_name h)) as [IH1 IH2]. split.
    + rewrite IH1, get_add_same, <- app_assoc. reflexivity.
    + intros other Ho. rewrite (IH2 other Ho). now apply get_add_other.
Qed.

(** X17.  [remove_event_handler] without a handler never raises: the
    event has no handler afterwards, whether it had any before or not, and
    the other events keep theirs. *)
Theorem remove_event_handler_all (self : @Component Handler) (event_name : string) :
  exists self',
    remove_event_handler Handler_eq_dec self event_name None = Returns self'
    /\ get_event_handlers self' event_name = []
    /\ (forall other, other <> event_name ->
          get_event_handlers self' other = get_event_handlers self other).
Proof.
  eexists. split; [reflexivity |]. unfold get_event_handlers, od_get_default. simpl.
  split; [now rewrite od_get_pop_same |].
  intros other Ho. now rewrite od_get_pop_other.
Qed.

Lemma remove_event_handler_first (self : @Component Handler) (event_name : string)
    (f : Handler) (l1 l2 : list (option Handler)) :
  od_get event_name (_events self) = Some (l1 ++ Some f :: l2) ->
  ~ In (Some f) l1 ->
  remove_event_handler Handler_eq_dec self event_name (Some f) =
  Returns (mkComponent (od_replace event_name (l1 ++ l2) (_events self))).
Proof.
  intros E Hl. unfold remove_event_handler.
  now rewrite E, list_remove_first by exact Hl.
Qed.

Lemma get_replace (self : @Component Handler) (event_name other : string)
    (l l' : list (option Handler)) :
  od_get event_name (_events self) = Some l ->
  get_event_handlers (mkComponent (od_replace event_name l' (_events self))) other =
  if String.eqb other event_name then l' else get_event_handlers self other.
Proof.
  intros E. unfold get_event_handlers, od_get_default. simpl.
  destruct (String.eqb other event_name) eqn:Eo.
  - apply String.eqb_eq in Eo. subst other. now rewrite od_get_replace_same, E.
  - apply String.eqb_neq in Eo. now rewrite od_get_replace_other by congruence.
Qed.

(** X18.  [remove_event_handler] with a handler raises [KeyError] for an
    event that no handler was ever given to and [ValueError] when the
    handler is not among those of the event; otherwise the first
    registration of the handler goes, the others stay in their order, and
    the other events keep their handlers. *)
Theorem remove_event_handler_one (self : @Component Handler) (event_name : string)
    (f : Handler) :
  (od_get event_name (_events self) = None ->
   remove_event_handler Handler_eq_dec self event_name (Some f) =
   Throws (Exc (KeyError event_name)))
  /\ (forall l,
        od_get event_name (_events self) = Some l -> ~ In (Some f) l ->
        remove_event_handler Handler_eq_dec self event_name (Some f) = Throws ValueError)
  /\ (forall l1 l2,
        od_get event_name (_events self) = Some (l1 ++ Some f :: l2) ->
        ~ In (Some f) l1 ->
        exists self',
          remove_event_handler Handler_eq_dec self event_name (Some f) = Returns self'
          /\ get_event_handlers self' event_name = l1 ++ l2
          /\ (forall other, other <> event_name ->
                get_event_handlers self' other = get_event_handlers self other)).
Proof.
  repeat apply conj.
  - unfold remove_event_handler. now intros ->.
  - unfold remove_event_handler. intros l -> Hl. now rewrite list_remove_absent.
  - intros l1 l2 E Hl. eexists. split; [exact (remove_event_handler_first _ _ _ _ _ E Hl) |].
    split.
    + now rewrite (get_replace _ _ _ _ _ E), String.eqb_refl.
    + intros other Ho. rewrite (get_replace _ _ _ _ _ E).
      apply String.eqb_neq in Ho. now rewrite Ho.
Qed.

(** X19.  Adding a handler and removing it again gives every event the
    handlers it had, when the handler was not registered for the event
    before; when it was, it is the older registration that goes and the
    new one stays last. *)
Theorem add_then_remove (self : @Component Handler) (event_name : string) (f : Handler) :
  (~ In (Some f) (get_event_handlers self event_name) ->
   exists self',
     remove_event_handler Handler_eq_dec
       (add_event_handler self event_name (Some f)) event_name (Some f) = Returns self'
     /\ forall other, get_event_handlers self' other = get_event_handlers self other)
  /\ (forall l1 l2,
        get_event_handlers self event_name = l1 ++ Some f :: l2 ->
        ~ In (Some f) l1 ->
        exists self',
          remove_event_handler Handler_eq_dec
            (add_event_handler self event_name (Some f)) event_name (Some f) =
          Returns self'
          /\ get_event_handlers self' event_name = l1 ++ l2 ++ [Some f]).
Proof.
  assert (Hadd : od_get event_name (_events (add_event_handler self event_name (Some f))) =
                 Some (get_event_handlers self event_name ++ [Some f])).
  { unfold add_event_handler, od_update. simpl. apply od_get_set_same. }
  split.
  - intros Hf. eexists.
    split; [exact (remove_event_handler_first _ _ _ _ [] Hadd Hf) |].
    intros other. rewrite (get_replace _ _ _ _ _ Hadd), app_nil_r.
    destruct (String.eqb other event_name) eqn:Eo.
    + apply String.eqb_eq in Eo. now subst other.
    + apply String.eqb_neq in Eo. now apply get_add_other.
  - intros l1 l2 El Hl. rewrite El, <- app_assoc, <- app_comm_cons in Hadd.
    eexists. split; [exact (remove_event_handler_first _ _ _ _ _ Hadd Hl) |].
    now rewrite (get_replace _ _ _ _ _ Hadd), String.eqb_refl.
Qed.

(** X20.  [set_event_handler] leaves the event with the one handler it
    is given, whatever handlers the event had, and the other events with
    theirs.  Given [None] it leaves the event with the one handler
    [None]: the event is not without handlers, and raising it raises
    [TypeError]. *)
Theorem set_event_handler_replaces (self : @Component Handler) (event_name : string)
    (handler_func : option Handler) (event_args : Args) (w : World) :
  get_event_handlers (set_event_handler self event_name handler_func) event_name =
  [handler_func]
  /\ (forall other, other <> event_name ->
        get_event_handlers (set_event_handler self event_name handler_func) other =
        get_event_handlers self other)
  /\ raise_event call (set_event_handler self event_name None) event_name event_args w =
     Throws (Exc TypeError).
Proof.
  unfold raise_event, get_event_handlers, set_event_handler, od_get_default. simpl.
  repeat apply conj.
  - now rewrite od_get_set_same.
  - intros other Ho. now rewrite od_get_set_other by congruence.
  - now rewrite od_get_set_same.
Qed.

(** X21.  [raise_event] calls the handlers of the event in the order in
    which they were added, each on what its predecessor left, and stops at
    the first exception: raising an event after a handler was added is
    raising it before and then calling the new handler.  The handlers of
    the other events are not called, and an event without handlers
    changes nothing. *)
Theorem raise_event_in_order (self : @Component Handler) (event_name : string)
    (f : Handler) (event_args : Args) (w : World) :
  raise_event call (add_event_handler self event_name (Some f)) event_name event_args w =
  match raise_event call self event_name event_args w with
  | Returns w' => call f event_args w'
  | Throws e => Throws e
  end
  /\ (forall other h, other <> event_name ->
        raise_event call (add_event_handler self event_name h) other event_args w =
        raise_event call self other event_args w)
  /\ (get_event_handlers self event_name = [] ->
      raise_event call self event_name event_args w = Returns w).
Proof.
  repeat apply conj.
  - unfold raise_event.
    change (od_get_default event_name []
              (_events (add_event_handler self event_name (Some f))))
      with (get_event_handlers (add_event_handler self event_name (Some f)) event_name).
    rewrite get_add_same, call_each_app. unfold get_event_handlers.
    destruct (call_each call (od_get_default event_name [] (_events self)) event_args w)
      as [w' | e]; [| reflexivity].
    simpl. now destruct (call f event_args w').
  - intros other h Ho. unfold raise_event.
    change (od_get_default other [] (_events (add_event_handler self event_name h)))
      with (get_event_handlers (add_event_handler self event_name h) other).
    now rewrite get_add_other.
  - unfold raise_event, get_event_handlers. now intros ->.
Qed.

(** X22.  [add_component] with an index other than zero raises
    [TypeError] and adds nothing; without an index, and with the index
    zero, it puts the component last.  [clear] leaves the container
    without components, and neither touches the handlers. *)
Theorem add_component_index (self : @Container Handler Child) (c : Child) :
  (forall i, i <> BinNums.Z0 -> add_component self c (Some i) = Throws (Exc TypeError))
  /\ (forall index, index = None \/ index = Some BinNums.Z0 ->
        exists self',
          add_component self c index = Returns self'
          /\ get_components self' = get_components self ++ [c]
          /\ component self' = component self)
  /\ get_components (clear self) = []
  /\ component (clear self) = component self.
Proof.
  repeat apply conj; try reflexivity.
  - intros i Hi. unfold add_component.
    apply BinInt.Z.eqb_neq in Hi. now rewrite Hi.
  - intros index [-> | ->]; eexists; (split; [reflexivity |]); split; reflexivity.
Qed.

End RuntimeFacts.

(** ** The runtime classes on the examples *)

Lemma remove_event_handler_one_witness :
  remove_event_handler Nat.eq_dec (@mkComponent nat []) "click" (Some 1) =
  Throws (Exc (KeyError "click"))
  /\ remove_event_handler Nat.eq_dec clicked "click" (Some 3) = Throws ValueError
  /\ exists self',
       remove_event_handler Nat.eq_dec clicked "click" (Some 1) = Returns self'
       /\ get_event_handlers self' "click" = [Some 2; Some 1].
Proof.
  repeat apply conj.
  - apply (proj1 (remove_event_handler_one Nat.eq_dec (@mkComponent nat []) "click" 1)).
    reflexivity.
  - apply (proj1 (proj2 (remove_event_handler_one Nat.eq_dec clicked "click" 3))
             [Some 1; Some 2; Some 1]); [reflexivity |].
    simpl. intuition discriminate.
  - destruct (proj2 (proj2 (remove_event_handler_one Nat.eq_dec clicked "click" 1))
                [] [Some 2; Some 1] eq_refl (fun H => H)) as [self' [H1 [H2 _]]].
    exists self'. split; assumption.
Defined.

Lemma add_then_remove_witness :
  exists self',
    remove_event_handler Nat.eq_dec
      (add_event_handler clicked "click" (Some 3)) "click" (Some 3) = Returns self'
    /\ forall other, get_event_handlers self' other = get_event_handlers clicked other.
Proof.
  apply (proj1 (add_then_remove Nat.eq_dec clicked "click" 3)).
  simpl. intuition discriminate.
Defined.

Lemma raise_event_in_order_witness :
  raise_event example_call (@mkComponent nat []) "click" tt [] = Returns []
  /\ raise_event example_call (add_event_handler clicked "click" (Some 3)) "click" tt [] =
     Returns [1; 2; 1; 3].
Proof.
  split.
  - apply (proj2 (proj2 (raise_event_in_order example_call (@mkComponent nat [])
                           "click" 0 tt []))).
    reflexivity.
  - rewrite (proj1 (raise_event_in_order example_call clicked "click" 3 tt [])).
    reflexivity.
Defined.

Lemma add_component_index_witness :
  add_component shelf "b" (Some (BinNums.Zpos BinNums.xH)) = Throws (Exc TypeError)
  /\ exists self',
       add_component shelf "b" (Some BinNums.Z0) = Returns self'
       /\ get_components self' = ["a"; "b"].
Proof.
  split.
  - apply (proj1 (add_component_index shelf "b")). discriminate.
  - destruct (proj1 (proj2 (add_component_index shelf "b")) (Some BinNums.Z0))
      as [self' [H1 [H2 _]]]; [now right |].
    exists self'. split; assumption.
Defined.
